(** * ssmeb: SSM parameters to Elastic Beanstalk option settings

    A shallow embedding of [ssmeb.go] and the properties of its two
    pipelines (get and set).

    The program is a sequential script over four collaborators that live
    outside the repository: the file system, the YAML codec, the SSM
    service and the standard streams.  The file system, the codec and SSM
    are taken as an interface ([Env]) over an abstract environment state;
    standard input is a concrete sequence of chunks, standard output and
    standard error are recorded in a trace together with every call made
    to the environment. *)

From Stdlib Require Import Ascii.
From stdpp Require Import base option list strings pretty gmap.


(** ** Data model (ssmeb.go, lines 17-49) *)

(** [parameter] holds info about an ssm parameter. *)
Record parameter := mkParameter {
  par_Name : string;         (* yaml: option_name *)
  par_Description : string;  (* yaml: description *)
  par_Path : string;         (* yaml: path *)
  par_Value : string         (* yaml: value *)
}.

(** [parameters] is the type of the input file. *)
Record parameters := mkParameters {
  Component : list parameter;   (* parameters owned by this app *)
  External : list parameter     (* parameters external to this app *)
}.

(** [ebOption] holds info about a beanstalk option. *)
Record ebOption := mkEbOption {
  opt_Name : string;
  opt_Value : string
}.

(** [ebOptionSettings] is the output format of the program. *)
Record ebOptionSettings := mkEbOptionSettings {
  Options : list ebOption
}.

(** The zero values of the two struct types ([var parameters parameters],
    [var eb ebOptionSettings]). *)
Definition zero_parameters : parameters := mkParameters [] [].
Definition zero_ebOptionSettings : ebOptionSettings := mkEbOptionSettings [].

(** ** The environment *)

(** A Go [error] is observed by the program only through its message. *)
Definition error := string.

(** Result of a call into a library that returns [(T, error)] and whose
    [T] is not used when the error is not nil. *)
Inductive result (A : Type) : Type :=
| Ok (a : A)
| Failed (e : error).
Arguments Ok {A} a.
Arguments Failed {A} e.

(** The part of the AWS SDK types that the program reads or fills in.
    A field that is a pointer the program dereferences is an [option];
    the input fields the program always sets from the address of a local
    variable are plain values. *)
Record ssm_Parameter := mkSsmParameter {
  sp_Value : option string
}.

Record GetParameterOutput := mkGetParameterOutput {
  gpo_Parameter : option ssm_Parameter
}.

Record GetParameterInput := mkGetParameterInput {
  gpi_Name : string
}.

Record PutParameterInput := mkPutParameterInput {
  ppi_Name : string;
  ppi_Description : string;
  ppi_Value : string;
  ppi_Overwrite : bool;
  ppi_Type : string
}.

Record PutParameterOutput := mkPutParameterOutput {
  ppo_Version : Z
}.

(** A session is an opaque token handed to [ssm.New]. *)
Inductive Session : Set := TheSession.

(** An open file is identified by the name it was created under. *)
Definition File := string.

(** What the program consumes from outside the repository.  [Σ] is the
    state of the outside world (disk, remote store); every operation may
    change it and may fail. *)
Class Env (Σ : Type) := {
  (* ioutil.ReadFile *)
  ReadFile : string → Σ → result string * Σ;
  (* yaml.Unmarshal(in, &parameters) on a zero [parameters]: the value
     left in the struct and the error *)
  Unmarshal : string → parameters * option error;
  (* yaml.Marshal on an ebOptionSettings *)
  Marshal : ebOptionSettings → result string;
  (* session.NewSessionWithOptions *)
  NewSessionWithOptions : Σ → result Session * Σ;
  (* ssmClient.GetParameter *)
  GetParameter : GetParameterInput → Σ → result GetParameterOutput * Σ;
  (* ssmClient.PutParameter *)
  PutParameter : PutParameterInput → Σ → result PutParameterOutput * Σ;
  (* os.Create, File.Write, File.Close *)
  Create : string → Σ → result File * Σ;
  Write : File → string → Σ → (nat * option error) * Σ;
  Close : File → Σ → option error * Σ
}.

(** What [fmt.Println] is given on standard output: a string, or one of
    the two SDK structs, whose rendering belongs to the SDK. *)
Inductive printed : Set :=
| PString (s : string)
| PPutInput (i : PutParameterInput)
| PPutOutput (o : PutParameterOutput).

(** Everything the program does that can be observed from outside, in
    the order it does it. *)
Inductive event : Set :=
| EvStderr (s : string)
| EvStdout (v : printed)
| EvReadFile (name : string) (r : result string)
| EvNewSession (r : result Session)
| EvGetParameter (i : GetParameterInput) (r : result GetParameterOutput)
| EvPutParameter (i : PutParameterInput) (r : result PutParameterOutput)
| EvReadString (text : string) (err : option error)
| EvCreate (name : string) (r : result File)
| EvWrite (f : File) (data : string) (r : nat * option error)
| EvClose (f : File) (r : option error).

(** ** bufio and strings *)

(** The bytes of a string. *)
Abbreviation bytes := String.list_ascii_of_string.

(** [cut delim s] splits [s] after the first occurrence of [delim]. *)
Fixpoint cut (delim : ascii) (s : string) : option (string * string) :=
  match s with
  | EmptyString => None
  | String c s' =>
      if decide (c = delim) then Some (String c EmptyString, s')
      else match cut delim s' with
           | Some (line, rest) => Some (String c line, rest)
           | None => None
           end
  end.

(** [bufio.NewReader(os.Stdin).ReadString(delim)] on a fresh reader.

    Standard input is the list of chunks that the successive reads of
    the descriptor deliver, ending with end of file.  The reader fills
    its buffer chunk by chunk until the delimiter shows up and returns
    the data up to and including the delimiter; without a delimiter
    before the end of the input it returns what it has read together with
    [io.EOF].  Whatever the last chunk holds after the delimiter stays in
    the buffer of the reader, and is gone with it: the caller drops the
    reader after one call. *)
Fixpoint ReadString (delim : ascii) (chunks : list string)
  : (string * option error) * list string :=
  match chunks with
  | [] => (("", Some "EOF"), [])
  | ch :: rest =>
      match cut delim ch with
      | Some (line, _) => ((line, None), rest)
      | None =>
          let '((text, err), rest') := ReadString delim rest in
          ((ch +:+ text, err), rest')
      end
  end.

(** [strings.Replace(s, old, new, -1)] for a non-empty [old]: every
    non-overlapping occurrence of [old], leftmost first, becomes [new].
    [skip] counts the bytes of a matched occurrence still to be dropped. *)
Fixpoint Replace_from (skip : nat) (s old new : string) : string :=
  match s with
  | EmptyString => EmptyString
  | String c s' =>
      match skip with
      | S k => Replace_from k s' old new
      | O =>
          if String.prefix old s
          then new +:+ Replace_from (String.length old - 1) s' old new
          else String c (Replace_from 0 s' old new)
      end
  end.

Definition Replace (s old new : string) : string := Replace_from 0 s old new.

(** The newline byte (Go's backslash-n). *)
Definition nl : ascii := Ascii.ascii_of_nat 10.
Definition NL : string := String nl EmptyString.

(** ** Runs of the program *)

(** How a run, or a part of one, ends: it returns a value, the process
    exits with a status ([os.Exit], [log.Fatal]), or it panics. *)
Inductive outcome (A : Type) : Type :=
| Done (a : A)
| Exited (code : Z)
| Panicked (msg : string).
Arguments Done {A} a.
Arguments Exited {A} code.
Arguments Panicked {A} msg.

(** The command line as [flag.Parse] reads it: the flags given, by name,
    each with its value, in order.  The eight names are the ones [main]
    registers; a command line that [flag.Parse] rejects ends the process
    inside [flag.Parse] and is not an input of this model. *)
Inductive flagName : Set :=
| f_input | f_i | f_output | f_o | f_environment | f_e | f_mode | f_m.

(** The four variables the flags are bound to. *)
Record Flags := mkFlags {
  input : string;
  output : string;
  environment : string;
  mode : string
}.

(** The defaults given to [flag.StringVar] (lines 54-68). *)
Definition flag_defaults : Flags := mkFlags "" "" "" "get".

(** Setting one flag writes the variable it was registered with; a long
    name and its shorthand share the variable. *)
Definition flag_Set (name : flagName) (value : string) (f : Flags) : Flags :=
  match name with
  | f_input | f_i => mkFlags value (output f) (environment f) (mode f)
  | f_output | f_o => mkFlags (input f) value (environment f) (mode f)
  | f_environment | f_e => mkFlags (input f) (output f) value (mode f)
  | f_mode | f_m => mkFlags (input f) (output f) (environment f) value
  end.

Definition flag_Parse (args : list (flagName * string)) : Flags :=
  foldl (λ f a, flag_Set a.1 a.2 f) flag_defaults args.

Definition nil_dereference : string :=
  "runtime error: invalid memory address or nil pointer dereference".

Section Program.
Context {Σ : Type} `{!Env Σ}.

(** The state of a run: the outside world, what is left of standard
    input, and the trace of what has been done so far. *)
Record World := mkWorld {
  sys : Σ;
  stdin : list string;
  trace : list event
}.

(** A computation changes the world and ends in an outcome. *)
Definition M (A : Type) : Type := World → outcome A * World.

Definition ret {A} (a : A) : M A := λ w, (Done a, w).

Definition bind {A B} (m : M A) (k : A → M B) : M B :=
  λ w, match m w with
       | (Done a, w') => k a w'
       | (Exited c, w') => (Exited c, w')
       | (Panicked p, w') => (Panicked p, w')
       end.

Notation "x <- c ;; k" := (bind c (λ x, k))
  (at level 100, c at next level, right associativity).
Notation "c ;; k" := (bind c (λ _, k))
  (at level 100, right associativity).

Definition emit (e : event) : M unit :=
  λ w, (Done tt, mkWorld (sys w) (stdin w) (trace w ++ [e])).

(** A call into the environment, recorded with its result. *)
Definition call {A} (op : Σ → A * Σ) (ev : A → event) : M A :=
  λ w, let '(a, σ) := op (sys w) in
       (Done a, mkWorld σ (stdin w) (trace w ++ [ev a])).

Definition os_Exit {A} (code : Z) : M A := λ w, (Exited code, w).
Definition panic {A} (msg : string) : M A := λ w, (Panicked msg, w).

(** Formatted output.  The strings are the ones [fmt] builds from the
    format and the operands. *)
Definition stderr_print (s : string) : M unit := emit (EvStderr s).
Definition stdout_print (s : string) : M unit := emit (EvStdout (PString s)).
(** [fmt.Println(v)] for one operand: the operand, then a newline. *)
Definition Println (s : string) : M unit := stdout_print (s +:+ NL).
Definition Println_PutInput (i : PutParameterInput) : M unit :=
  emit (EvStdout (PPutInput i)).
Definition Println_PutOutput (o : PutParameterOutput) : M unit :=
  emit (EvStdout (PPutOutput o)).

(** [log.Fatal] and [log.Fatalf]: the message goes to standard error
    (after the logger's time stamp, which is left out) and the process
    exits with status 1. *)
Definition log_Fatal {A} (msg : string) : M A :=
  stderr_print (msg +:+ NL);; os_Exit 1.

(** [reader := bufio.NewReader(os.Stdin); reader.ReadString(delim)]. *)
Definition stdin_ReadString (delim : ascii) : M (string * option error) :=
  λ w, let '((text, err), rest) := ReadString delim (stdin w) in
       (Done (text, err),
        mkWorld (sys w) rest (trace w ++ [EvReadString text err])).

(** *** readParametersFile (lines 122-144) *)

Definition with_Path (path : string) (par : parameter) : parameter :=
  mkParameter (par_Name par) (par_Description par) path (par_Value par).

(** [for i, par := range s { s[i].Path = "/" + environment + par.Path }]:
    the slice is updated in place, element by element; [par] is the
    copy of [s[i]] taken when iteration [i] starts. *)
Definition prefixBody (environment : string) (s : list parameter) (i : nat)
  : list parameter :=
  match s !! i with
  | Some par => alter (with_Path ("/" +:+ environment +:+ par_Path par)) i s
  | None => s
  end.

Definition prefixLoop (environment : string) (s : list parameter)
  : list parameter :=
  foldl (prefixBody environment) s (seq 0 (length s)).

Definition readParametersFile (filename environment : string)
  : M (parameters * option error) :=
  r <- call (ReadFile filename) (EvReadFile filename);;
  match r with
  | Failed err => ret (zero_parameters, Some err)
  | Ok inputFile =>
      let '(parameters, err) := Unmarshal inputFile in
      match err with
      | Some err => ret (parameters, Some err)
      | None =>
          if decide (environment ≠ "") then
            ret (mkParameters
                   (prefixLoop environment (Component parameters))
                   (prefixLoop environment (External parameters)),
                 None)
          else ret (parameters, None)
      end
  end.

(** *** getBeanstalkOptions (lines 148-174) *)

(** [*parOutput.Parameter.Value] *)
Definition deref_Parameter_Value (parOutput : GetParameterOutput) : M string :=
  match gpo_Parameter parOutput with
  | Some p =>
      match sp_Value p with
      | Some v => ret v
      | None => panic nil_dereference
      end
  | None => panic nil_dereference
  end.

(** One of the two [for _, par := range ...] loops, from the
    accumulator [eb] it starts with.  [return eb, err] leaves the loop
    and the function. *)
Fixpoint getLoop (pars : list parameter) (eb : ebOptionSettings)
  : M (ebOptionSettings * option error) :=
  match pars with
  | [] => ret (eb, None)
  | par :: rest =>
      stderr_print ("* Getting `" +:+ par_Name par +:+ "` from path `"
                    +:+ par_Path par +:+ "`... ");;
      r <- call (GetParameter (mkGetParameterInput (par_Path par)))
                (EvGetParameter (mkGetParameterInput (par_Path par)));;
      match r with
      | Failed err => ret (eb, Some err)
      | Ok parOutput =>
          value <- deref_Parameter_Value parOutput;;
          let eb := mkEbOptionSettings
                      (Options eb ++ [mkEbOption (par_Name par) value]) in
          stderr_print ("OK" +:+ NL);;
          getLoop rest eb
      end
  end.

Definition getBeanstalkOptions (session : Session) (parameters : parameters)
  : M (ebOptionSettings * option error) :=
  r <- getLoop (Component parameters) zero_ebOptionSettings;;
  let '(eb, err) := r in
  match err with
  | Some err => ret (eb, Some err)
  | None => getLoop (External parameters) eb
  end.

(** *** setBeanstalkOptions (lines 177-213) *)

(** Lines 182-194: the value to store for [par], or the error of the
    read. *)
Definition setValue (par : parameter) : M (result string) :=
  let value := par_Value par in
  if decide (value = "") then
    stdout_print ("* Input value for `" +:+ par_Path par +:+ "`: ");;
    r <- stdin_ReadString nl;;
    let '(text, err) := r in
    match err with
    | Some err => ret (Failed err)
    | None => ret (Ok (Replace text NL ""))
    end
  else
    stdout_print ("* Setting value for `" +:+ par_Path par +:+ "`..." +:+ NL);;
    ret (Ok value).

(** The body of the loop; [Some err] is [return err]. *)
Definition setBody (par : parameter) : M (option error) :=
  r <- setValue par;;
  match r with
  | Failed err => ret (Some err)
  | Ok value =>
      let overwrite := true in
      let parType := "String" in
      let ssmPar := mkPutParameterInput (par_Path par) (par_Description par)
                      value overwrite parType in
      Println_PutInput ssmPar;;
      r <- call (PutParameter ssmPar) (EvPutParameter ssmPar);;
      match r with
      | Failed err => ret (Some err)
      | Ok putOutput => Println_PutOutput putOutput;; ret None
      end
  end.

Fixpoint setLoop (pars : list parameter) : M (option error) :=
  match pars with
  | [] => ret None
  | par :: rest =>
      err <- setBody par;;
      match err with
      | Some err => ret (Some err)
      | None => setLoop rest
      end
  end.

Definition setBeanstalkOptions (session : Session) (parameters : parameters)
  : M (option error) :=
  setLoop (Component parameters).

(** *** writeToFile (lines 216-231) *)

Definition writeToFile (output data : string) : M (option error) :=
  r <- call (Create output) (EvCreate output);;
  match r with
  | Failed err => ret (Some err)
  | Ok outFile =>
      r <- call (Write outFile data) (EvWrite outFile data);;
      let '(bytesOut, err) := r in
      match err with
      | Some err => ret (Some err)
      | None =>
          stderr_print (pretty bytesOut +:+ " bytes written successfully to `"
                        +:+ output +:+ "`" +:+ NL);;
          err <- call (Close outFile) (EvClose outFile);;
          match err with
          | Some err => ret (Some err)
          | None => ret None
          end
      end
  end.

(** *** main (lines 51-118) *)

(** [session.Must(session.NewSessionWithOptions(...))] *)
Definition session_Must_New : M Session :=
  r <- call NewSessionWithOptions EvNewSession;;
  match r with
  | Ok session => ret session
  | Failed err => panic err
  end.

(** Lines 91-116: the choice of the pipeline. *)
Definition runMode (mode output : string) (session : Session)
    (parameters : parameters) : M unit :=
  if decide (mode = "get") then
    r <- getBeanstalkOptions session parameters;;
    let '(ebOptions, err) := r in
    match err with
    | Some err => log_Fatal ("Error getting values: " +:+ err)
    | None =>
        match Marshal ebOptions with
        | Failed err =>
            log_Fatal ("Error marshaling beanstalk options: " +:+ err)
        | Ok ebYaml =>
            if decide (output = "") then Println ebYaml
            else
              err <- writeToFile output ebYaml;;
              match err with
              | Some _ =>
                  log_Fatal ("Error writing to file `" +:+ output +:+ "`")
              | None => ret tt
              end
        end
    end
  else if decide (mode = "set") then
    err <- setBeanstalkOptions session parameters;;
    match err with
    | Some err => log_Fatal ("Error setting values: " +:+ err)
    | None => ret tt
    end
  else log_Fatal ("Invalid mode: " +:+ mode).

Definition banner (f : Flags) : M unit :=
  stderr_print ("-----------------------------------------" +:+ NL);;
  stderr_print ("input:       " +:+ " " +:+ input f +:+ NL);;
  stderr_print ("output:      " +:+ " " +:+ output f +:+ NL);;
  stderr_print ("environment: " +:+ " " +:+ environment f +:+ NL);;
  stderr_print ("mode:        " +:+ " " +:+ mode f +:+ NL);;
  stderr_print ("-----------------------------------------" +:+ NL).

(** Lines 51-89: the flags, the banner, the input file, the session. *)
Definition setup (args : list (flagName * string))
  : M (Flags * parameters * Session) :=
  let f := flag_Parse args in
  banner f;;
  if decide (input f = "") then
    log_Fatal "Missing mandatory argument: `input`"
  else
    r <- readParametersFile (input f) (environment f);;
    let '(parameters, err) := r in
    match err with
    | Some err =>
        log_Fatal ("Error reading file `" +:+ input f +:+ "`: " +:+ err)
    | None =>
        session <- session_Must_New;;
        ret (f, parameters, session)
    end.

Definition main (args : list (flagName * string)) : M unit :=
  s <- setup args;;
  let '(f, parameters, session) := s in
  runMode (mode f) (output f) session parameters.

(** *** Reading a trace *)

(** The paths asked of [GetParameter], in call order. *)
Definition get_calls (t : list event) : list string :=
  omap (λ e, match e with
             | EvGetParameter i _ => Some (gpi_Name i)
             | _ => None
             end) t.

(** The inputs given to [PutParameter], in call order. *)
Definition put_calls (t : list event) : list PutParameterInput :=
  omap (λ e, match e with
             | EvPutParameter i _ => Some i
             | _ => None
             end) t.

(** Kinds of events. *)
Definition is_stdout (e : event) : Prop :=
  match e with EvStdout _ => True | _ => False end.
Definition is_file_write (e : event) : Prop :=
  match e with
  | EvCreate _ _ | EvWrite _ _ _ | EvClose _ _ => True
  | _ => False
  end.
Definition is_get (e : event) : Prop :=
  match e with EvGetParameter _ _ => True | _ => False end.
Definition is_put (e : event) : Prop :=
  match e with EvPutParameter _ _ => True | _ => False end.
Definition is_read (e : event) : Prop :=
  match e with EvReadString _ _ => True | _ => False end.

(** What each part of the program may do: [setup] writes to standard
    error, reads a file and opens a session; the get pipeline writes to
    standard error and calls [GetParameter]; the set pipeline writes to
    standard output, reads standard input and calls [PutParameter],
    always with the same [Overwrite] and [Type]; what is left of
    [runMode] writes to the two streams and to the output file. *)
Definition setup_event (e : event) : Prop :=
  match e with
  | EvStderr _ | EvReadFile _ _ | EvNewSession _ => True
  | _ => False
  end.
Definition get_event (e : event) : Prop :=
  match e with
  | EvStderr _ | EvGetParameter _ _ => True
  | _ => False
  end.
Definition set_event (e : event) : Prop :=
  match e with
  | EvStdout _ | EvReadString _ _ => True
  | EvPutParameter i _ => ppi_Overwrite i = true ∧ ppi_Type i = "String"
  | _ => False
  end.
Definition output_event (e : event) : Prop :=
  match e with
  | EvStderr _ | EvStdout _ | EvCreate _ _ | EvWrite _ _ _ | EvClose _ _ =>
      True
  | _ => False
  end.

(** A [PutParameter] input with overwrite enabled and the plain string
    type, and the events that are no call to [PutParameter] or a call
    with such an input. *)
Definition overwrite_String (i : PutParameterInput) : Prop :=
  ppi_Overwrite i = true ∧ ppi_Type i = "String".
Definition put_checked (e : event) : Prop :=
  match e with
  | EvPutParameter i _ => overwrite_String i
  | _ => True
  end.

(** The events of neither pipeline: no call to the remote store, no
    read of standard input. *)
Definition no_pipeline (e : event) : Prop :=
  ¬ is_get e ∧ ¬ is_put e ∧ ¬ is_read e.

(** *** Behaviour of the remote store over a sequence of fetches *)

(** A [GetParameter] result whose [Parameter.Value] is there. *)
Definition fetched (v : string) : result GetParameterOutput :=
  Ok (mkGetParameterOutput (Some (mkSsmParameter (Some v)))).

Definition fetched_value (r : result GetParameterOutput) : option string :=
  match r with
  | Ok o => p ← gpo_Parameter o; sp_Value p
  | Failed _ => None
  end.

(** [fetches σ paths]: the values obtained when the paths are fetched
    one after the other from the state [σ], and the state reached, if
    every fetch succeeds. *)
Fixpoint fetches (σ : Σ) (paths : list string) : option (list string * Σ) :=
  match paths with
  | [] => Some ([], σ)
  | path :: rest =>
      let '(r, σ1) := GetParameter (mkGetParameterInput path) σ in
      v ← fetched_value r;
      '(vs, σ2) ← fetches σ1 rest;
      Some (v :: vs, σ2)
  end.

(** *** Properties of computations *)

(** Whatever the world [m] starts from, the events it adds to the
    trace all satisfy [P]. *)
Definition emits_only {A} (P : event → Prop) (m : M A) : Prop :=
  ∀ w, ∃ t, trace (m w).2 = trace w ++ t ∧ Forall P t.

(** [m] consumes nothing of standard input. *)
Definition keeps_stdin {A} (m : M A) : Prop :=
  ∀ w, stdin (m w).2 = stdin w.

(** What the specification says a parameter becomes under a non-empty
    environment: the same parameter at the path
    ["/" + environment + path]. *)
Definition prefixed (environment : string) (par : parameter) : parameter :=
  with_Path ("/" +:+ environment +:+ par_Path par) par.

(** The option the get pipeline builds for [par] from the value [v]. *)
Definition option_of (par : parameter) (v : string) : ebOption :=
  mkEbOption (par_Name par) v.

(** The input the set pipeline builds for [par] and the value [v]. *)
Definition put_input_of (par : parameter) (v : string) : PutParameterInput :=
  mkPutParameterInput (par_Path par) (par_Description par) v true "String".

(** The end of the body, once the value is known: the input is
    printed, [PutParameter] is called, and its output is printed when
    there is one. *)
Definition put_events (par : parameter) (value : string)
    (r : result PutParameterOutput) : list event :=
  [EvStdout (PPutInput (put_input_of par value));
   EvPutParameter (put_input_of par value) r] ++
  match r with
  | Ok putOutput => [EvStdout (PPutOutput putOutput)]
  | Failed _ => []
  end.

Definition put_error (r : result PutParameterOutput) : option error :=
  match r with
  | Ok _ => None
  | Failed err => Some err
  end.

(** *** The start of a run and sequences of stores *)

(** The six lines [main] writes to standard error before anything else
    (lines 72-77). *)
Definition banner_events (f : Flags) : list event :=
  [EvStderr ("-----------------------------------------" +:+ NL);
   EvStderr ("input:       " +:+ " " +:+ input f +:+ NL);
   EvStderr ("output:      " +:+ " " +:+ output f +:+ NL);
   EvStderr ("environment: " +:+ " " +:+ environment f +:+ NL);
   EvStderr ("mode:        " +:+ " " +:+ mode f +:+ NL);
   EvStderr ("-----------------------------------------" +:+ NL)].

(** The parameters a run works on when the input file holds [ps0]. *)
Definition loaded (environment : string) (ps0 : parameters) : parameters :=
  if decide (environment = "") then ps0
  else mkParameters (prefixed environment <$> Component ps0)
                    (prefixed environment <$> External ps0).

(** The input of the store of a parameter that comes with its value. *)
Definition given_input (par : parameter) : PutParameterInput :=
  put_input_of par (par_Value par).

(** [stores σ inputs]: the outputs obtained when the inputs are stored
    one after the other from the state [σ], and the state reached, if
    every store succeeds. *)
Fixpoint stores (σ : Σ) (inputs : list PutParameterInput)
  : option (list PutParameterOutput * Σ) :=
  match inputs with
  | [] => Some ([], σ)
  | i :: rest =>
      match PutParameter i σ with
      | (Ok o, σ1) =>
          '(os, σ2) ← stores σ1 rest;
          Some (o :: os, σ2)
      | (Failed _, _) => None
      end
  end.

(** The name and the path of a parameter: what the get pipeline reads
    of it. *)
Definition name_path (par : parameter) : string * string :=
  (par_Name par, par_Path par).

(** The flags that set the mode. *)
Definition is_mode_flag (name : flagName) : Prop :=
  name = f_mode ∨ name = f_m.

End Program.

Arguments World Σ : clear implicits.
Arguments M Σ A : clear implicits.

(** ** An in-memory environment

    A stand-in for the outside world, used to run the program on
    examples: the remote store and the disk are finite maps.  The
    theorems below hold for every environment, not only for this one. *)

Record Fake := mkFake {
  remote : gmap string string;
  disk : gmap string string;
  session_error : option error
}.

Definition sample_parameters : parameters :=
  mkParameters
    [mkParameter "DB_HOST" "database host" "/db/host" "";
     mkParameter "DB_USER" "" "/db/user" "admin"]
    [mkParameter "API_KEY" "" "/shared/key" "k"].

Definition fake_render (eb : ebOptionSettings) : string :=
  foldr (λ o s, "- option_name: " +:+ opt_Name o +:+ NL +:+
                "  value: " +:+ opt_Value o +:+ NL +:+ s)
        "" (Options eb).

#[export] Instance fake_Env : Env Fake := {|
  ReadFile name σ :=
    match disk σ !! name with
    | Some data => (Ok data, σ)
    | None => (Failed ("open " +:+ name +:+ ": no such file or directory"), σ)
    end;
  Unmarshal data :=
    if decide (data = "template") then (sample_parameters, None)
    else (zero_parameters, Some "yaml: unmarshal errors");
  Marshal eb := Ok ("option_settings:" +:+ NL +:+ fake_render eb);
  NewSessionWithOptions σ :=
    (match session_error σ with
     | None => Ok TheSession
     | Some err => Failed err
     end, σ);
  GetParameter i σ :=
    (match remote σ !! gpi_Name i with
     | Some v => fetched v
     | None => Failed "ParameterNotFound"
     end, σ);
  PutParameter i σ :=
    match remote σ !! ppi_Name i with
    | Some _ =>
        if ppi_Overwrite i
        then (Ok (mkPutParameterOutput 2),
              mkFake (<[ppi_Name i := ppi_Value i]> (remote σ)) (disk σ)
                     (session_error σ))
        else (Failed "ParameterAlreadyExists", σ)
    | None =>
        (Ok (mkPutParameterOutput 1),
         mkFake (<[ppi_Name i := ppi_Value i]> (remote σ)) (disk σ)
                (session_error σ))
    end;
  Create name σ :=
    (Ok name, mkFake (remote σ) (<[name := ""]> (disk σ)) (session_error σ));
  Write f data σ :=
    ((String.length data, None),
     mkFake (remote σ) (alter (λ old, old +:+ data) f (disk σ))
            (session_error σ));
  Close f σ := (None, σ)
|}.

(** Two parameters that the sample store holds. *)
Definition stored_parameters : parameters :=
  mkParameters [mkParameter "DB_HOST" "database host" "/db/host" ""]
               [mkParameter "DB_USER" "" "/db/user" "admin"].

(** A world to start from: the template on disk, two of its three
    parameters in the remote store. *)
Definition fake_sys : Fake :=
  mkFake {[ "/db/host" := "localhost"; "/db/user" := "root" ]}
         {[ "template.yaml" := "template" ]}
         None.

Definition fake_world (chunks : list string) : World Fake :=
  mkWorld fake_sys chunks [].

(** A store that holds the three sample parameters. *)
Definition full_sys : Fake :=
  mkFake {[ "/db/host" := "localhost"; "/db/user" := "root";
            "/shared/key" := "s3cr3t" ]}
         {[ "template.yaml" := "template";
            "values.yaml" := "values";
            "denied.yaml" := "denied" ]}
         None.

Definition full_world (chunks : list string) : World Fake :=
  mkWorld full_sys chunks [].

(** A world where no session can be opened. *)
Definition offline_sys : Fake :=
  mkFake ∅ {[ "template.yaml" := "template" ]} (Some "NoCredentialProviders").

Definition offline_world : World Fake := mkWorld offline_sys [] [].

(** Two input files that give every component parameter a value. *)
Definition given_parameters : parameters :=
  mkParameters
    [mkParameter "DB_USER" "" "/db/user" "admin";
     mkParameter "DB_HOST" "database host" "/db/host" "db.internal"]
    [mkParameter "API_KEY" "" "/shared/key" ""].

Definition denied_parameters : parameters :=
  mkParameters
    [mkParameter "DB_USER" "" "/db/user" "admin";
     mkParameter "API_KEY" "" "/shared/key" "k";
     mkParameter "DB_HOST" "database host" "/db/host" "db.internal"]
    [].

(** A second environment, for the runs the first one cannot show: it
    reads the two input files above, its disk cannot be written, and its
    store refuses to overwrite the shared key. *)
Record Restricted := mkRestricted { inner : Fake }.

#[export] Instance restricted_Env : Env Restricted := {|
  ReadFile name σ :=
    let '(r, σ1) := ReadFile name (inner σ) in (r, mkRestricted σ1);
  Unmarshal data :=
    if decide (data = "values") then (given_parameters, None)
    else if decide (data = "denied") then (denied_parameters, None)
    else Unmarshal (Σ:=Fake) data;
  Marshal eb := Marshal (Σ:=Fake) eb;
  NewSessionWithOptions σ :=
    let '(r, σ1) := NewSessionWithOptions (inner σ) in (r, mkRestricted σ1);
  GetParameter i σ :=
    let '(r, σ1) := GetParameter i (inner σ) in (r, mkRestricted σ1);
  PutParameter i σ :=
    if decide (ppi_Name i = "/shared/key")
    then (Failed "AccessDeniedException", σ)
    else let '(r, σ1) := PutParameter i (inner σ) in (r, mkRestricted σ1);
  Create name σ := (Failed ("open " +:+ name +:+ ": permission denied"), σ);
  Write f data σ := ((0, Some "bad file descriptor"), σ);
  Close f σ := (None, σ)
|}.

Definition restricted_world (chunks : list string) : World Restricted :=
  mkWorld (mkRestricted full_sys) chunks [].

(** ** Strings *)

Lemma append_cons c (s t : string) : String c s +:+ t = String c (s +:+ t).
Proof. reflexivity. Qed.

Lemma append_assoc (a b c : string) : (a +:+ b) +:+ c = a +:+ (b +:+ c).
Proof.
  induction a as [|x a IH]; [done|]. rewrite !append_cons. congruence.
Qed.

Lemma bytes_append (a b : string) : bytes (a +:+ b) = bytes a ++ bytes b.
Proof.
  induction a as [|x a IH]; [done|]. rewrite append_cons. simpl. congruence.
Qed.

(** [cut] returns a line that ends with the delimiter and holds it
    nowhere else, and loses nothing. *)
Lemma cut_Some delim s line rest :
  cut delim s = Some (line, rest) →
  ∃ body, line = body +:+ String delim "" ∧ (delim ∉ bytes body) ∧
          s = line +:+ rest.
Proof.
  revert line rest. induction s as [|c s IH]; intros line rest; simpl.
  - discriminate.
  - case_decide as Hc.
    + intros [= <- <-]. exists "". subst c. split_and!; [done | | done].
      apply not_elem_of_nil.
    + destruct (cut delim s) as [[l r]|] eqn:Hcut; [|discriminate].
      intros [= <- <-]. destruct (IH l r eq_refl) as (body & -> & Hnot & ->).
      exists (String c body). split_and!; [done | | done].
      simpl. rewrite not_elem_of_cons. auto.
Qed.

Lemma cut_None delim s : cut delim s = None → delim ∉ bytes s.
Proof.
  induction s as [|c s IH]; simpl.
  - intros _. apply not_elem_of_nil.
  - case_decide as Hc; [discriminate|].
    destruct (cut delim s) as [[l r]|]; [discriminate|].
    intros _. rewrite not_elem_of_cons. auto.
Qed.

(** A successful [ReadString] returns a text that ends with the
    delimiter and holds it nowhere else. *)
Lemma ReadString_line delim chunks text rest :
  ReadString delim chunks = ((text, None), rest) →
  ∃ body, text = body +:+ (String delim "") ∧ delim ∉ bytes body.
Proof.
  revert text rest. induction chunks as [|ch chunks IH]; intros text rest; simpl.
  - discriminate.
  - destruct (cut delim ch) as [[line r]|] eqn:Hcut.
    + intros [= <- <-]. destruct (cut_Some _ _ _ _ Hcut) as (body & ? & ? & _).
      eauto.
    + destruct (ReadString delim chunks) as [[t e] r] eqn:Hrd.
      intros [= <- -> <-]. destruct (IH t r eq_refl) as (body & -> & Hnot).
      exists (ch +:+ body). rewrite append_assoc. split; [done|].
      rewrite bytes_append, not_elem_of_app. split; [|done].
      by apply cut_None.
Qed.

(** Removing every newline from such a text removes its last byte and no
    other. *)
Lemma Replace_from_newline c (s : string) :
  Replace_from 0 (String c s) NL "" =
  if decide (c = nl) then Replace_from 0 s NL ""
  else String c (Replace_from 0 s NL "").
Proof.
  cbn [Replace_from String.prefix NL].
  destruct (ascii_dec nl c) as [<-|Hne].
  - rewrite decide_True by done. destruct s; reflexivity.
  - by rewrite decide_False by congruence.
Qed.

Lemma Replace_line (body : string) :
  nl ∉ bytes body → Replace (body +:+ NL) NL "" = body.
Proof.
  unfold Replace. induction body as [|c body IH].
  - intros _. reflexivity.
  - cbn [bytes]. rewrite not_elem_of_cons. intros [Hc Hb].
    rewrite append_cons, Replace_from_newline, decide_False by congruence.
    by rewrite IH.
Qed.

(** ** Computations *)

Section Computations.
Context {Σ : Type} `{!Env Σ}.
Implicit Types (w : World Σ) (t : list event) (P : event → Prop).

Lemma bind_Done {A B} (m : M Σ A) (k : A → M Σ B) w a w1 :
  m w = (Done a, w1) → bind m k w = k a w1.
Proof. unfold bind. by intros ->. Qed.

Lemma bind_ret {A B} (a : A) (k : A → M Σ B) w : bind (ret a) k w = k a w.
Proof. done. Qed.

Lemma bind_exit {A B} c (k : A → M Σ B) w :
  bind (os_Exit c) k w = (Exited c, w).
Proof. done. Qed.

Lemma bind_panic {A B} p (k : A → M Σ B) w :
  bind (panic p) k w = (Panicked p, w).
Proof. done. Qed.

Lemma bind_emit {B} e (k : unit → M Σ B) w :
  bind (emit e) k w = k tt (mkWorld (sys w) (stdin w) (trace w ++ [e])).
Proof. done. Qed.

Lemma bind_call {A B} (op : Σ → A * Σ) ev (k : A → M Σ B) w a σ :
  op (sys w) = (a, σ) →
  bind (call op ev) k w = k a (mkWorld σ (stdin w) (trace w ++ [ev a])).
Proof. unfold bind, call. by intros ->. Qed.

Lemma bind_read {B} delim (k : string * option error → M Σ B) w text err rest :
  ReadString delim (stdin w) = ((text, err), rest) →
  bind (stdin_ReadString delim) k w =
  k (text, err) (mkWorld (sys w) rest (trace w ++ [EvReadString text err])).
Proof. unfold bind, stdin_ReadString. by intros ->. Qed.

Lemma bind_Done_inv {A B} (m : M Σ A) (k : A → M Σ B) w b w' :
  bind m k w = (Done b, w') →
  ∃ a w1, m w = (Done a, w1) ∧ k a w1 = (Done b, w').
Proof. unfold bind. destruct (m w) as [[a|c|p] w1]; [by eauto|done..]. Qed.

Lemma log_Fatal_not_Done {A} msg w (a : A) w' :
  log_Fatal msg w ≠ (Done a, w').
Proof. done. Qed.

Lemma bind_assoc {A B C} (m : M Σ A) (k : A → M Σ B) (k' : B → M Σ C) w :
  bind (bind m k) k' w = bind m (λ a, bind (k a) k') w.
Proof. unfold bind. by destruct (m w) as [[a|c|p] w1]. Qed.

Lemma bind_ext {A B} (m : M Σ A) (k k' : A → M Σ B) w :
  (∀ a w1, k a w1 = k' a w1) → bind m k w = bind m k' w.
Proof. intros Hk. unfold bind. by destruct (m w) as [[a|c|p] w1]. Qed.

Lemma emits_only_ret {A} P (a : A) : emits_only P (ret (Σ:=Σ) a).
Proof. intros w. exists []. by rewrite app_nil_r. Qed.

Lemma emits_only_exit {A} P c : emits_only P (os_Exit (Σ:=Σ) (A:=A) c).
Proof. intros w. exists []. by rewrite app_nil_r. Qed.

Lemma emits_only_panic {A} P p : emits_only P (panic (Σ:=Σ) (A:=A) p).
Proof. intros w. exists []. by rewrite app_nil_r. Qed.

Lemma emits_only_emit P e : P e → emits_only P (emit (Σ:=Σ) e).
Proof. intros He w. exists [e]. split; [done|]. by constructor. Qed.

Lemma emits_only_call {A} P (op : Σ → A * Σ) ev :
  (∀ a, P (ev a)) → emits_only P (call op ev).
Proof.
  intros Hev w. unfold call. destruct (op (sys w)) as [a σ].
  exists [ev a]. split; [done|]. by constructor.
Qed.

Lemma emits_only_read P delim :
  (∀ text err, P (EvReadString text err)) →
  emits_only P (stdin_ReadString (Σ:=Σ) delim).
Proof.
  intros Hev w. unfold stdin_ReadString.
  destruct (ReadString delim (stdin w)) as [[text err] rest].
  exists [EvReadString text err]. split; [done|]. by constructor.
Qed.

Lemma emits_only_bind {A B} P (m : M Σ A) (k : A → M Σ B) :
  emits_only P m → (∀ a, emits_only P (k a)) → emits_only P (bind m k).
Proof.
  intros Hm Hk w. unfold bind. destruct (Hm w) as (t1 & Ht1 & HP1).
  destruct (m w) as [[a|c|p] w1]; simpl in *; [|by eauto..].
  destruct (Hk a w1) as (t2 & Ht2 & HP2).
  exists (t1 ++ t2). rewrite Ht2, Ht1, (assoc_L (++)).
  split; [done|]. by apply Forall_app.
Qed.

Lemma emits_only_impl {A} P Q (m : M Σ A) :
  (∀ e, P e → Q e) → emits_only P m → emits_only Q m.
Proof.
  intros HPQ Hm w. destruct (Hm w) as (t & Ht & HP).
  exists t. split; [done|]. by eapply Forall_impl.
Qed.

Lemma emits_only_run {A} P (m : M Σ A) w r w' :
  emits_only P m → m w = (r, w') →
  ∃ t, trace w' = trace w ++ t ∧ Forall P t.
Proof. intros Hm Hrun. specialize (Hm w). by rewrite Hrun in Hm. Qed.

(** The events a run adds are determined by its final trace. *)
Lemma emits_only_trace {A} P (m : M Σ A) w r w' t :
  emits_only P m → m w = (r, w') → trace w' = trace w ++ t → Forall P t.
Proof.
  intros Hm Hrun Ht. destruct (emits_only_run _ _ _ _ _ Hm Hrun) as (t' & Ht' & HP).
  rewrite Ht in Ht'. by apply (inj (app (trace w))) in Ht' as ->.
Qed.

Lemma keeps_stdin_ret {A} (a : A) : keeps_stdin (ret (Σ:=Σ) a).
Proof. done. Qed.

Lemma keeps_stdin_exit {A} c : keeps_stdin (os_Exit (Σ:=Σ) (A:=A) c).
Proof. done. Qed.

Lemma keeps_stdin_panic {A} p : keeps_stdin (panic (Σ:=Σ) (A:=A) p).
Proof. done. Qed.

Lemma keeps_stdin_emit e : keeps_stdin (emit (Σ:=Σ) e).
Proof. done. Qed.

Lemma keeps_stdin_call {A} (op : Σ → A * Σ) ev : keeps_stdin (call op ev).
Proof. intros w. unfold call. by destruct (op (sys w)). Qed.

Lemma keeps_stdin_bind {A B} (m : M Σ A) (k : A → M Σ B) :
  keeps_stdin m → (∀ a, keeps_stdin (k a)) → keeps_stdin (bind m k).
Proof.
  intros Hm Hk w. unfold bind. specialize (Hm w).
  destruct (m w) as [[a|c|p] w1]; simpl in *; [|done..].
  by rewrite Hk.
Qed.

End Computations.

(** One step of a proof that a computation emits only some events, or
    keeps standard input: follow the structure of the computation. *)
Ltac effects_step :=
  match goal with
  | |- emits_only _ (ret _) => apply emits_only_ret
  | |- emits_only _ (os_Exit _) => apply emits_only_exit
  | |- emits_only _ (panic _) => apply emits_only_panic
  | |- emits_only _ (emit _) => apply emits_only_emit
  | |- emits_only _ (call _ _) => apply emits_only_call; intros ?
  | |- emits_only _ (stdin_ReadString _) => apply emits_only_read; intros ? ?
  | |- emits_only _ (bind _ _) => apply emits_only_bind; [|intros ?]
  | |- keeps_stdin (ret _) => apply keeps_stdin_ret
  | |- keeps_stdin (os_Exit _) => apply keeps_stdin_exit
  | |- keeps_stdin (panic _) => apply keeps_stdin_panic
  | |- keeps_stdin (emit _) => apply keeps_stdin_emit
  | |- keeps_stdin (call _ _) => apply keeps_stdin_call
  | |- keeps_stdin (bind _ _) => apply keeps_stdin_bind; [|intros ?]
  | |- context [match ?x with Ok _ => _ | Failed _ => _ end] => destruct x
  | |- context [match ?x with Some _ => _ | None => _ end] => destruct x
  | |- context [match ?x with (_, _) => _ end] => destruct x
  | |- context [if decide ?x then _ else _] => destruct (decide x)
  end.

(** Bring a trace built event by event to the form [trace w ++ events]. *)
Ltac norm_trace := simpl; rewrite <-?(assoc_L (++)); simpl.

Ltac effects :=
  unfold log_Fatal, Println, Println_PutInput, Println_PutOutput,
    stdout_print, stderr_print;
  repeat effects_step; simpl; try done.

(** ** What each function does to the world *)

Section Effects.
Context {Σ : Type} `{!Env Σ}.
Implicit Types (w : World Σ) (t : list event) (P : event → Prop).

Lemma readParametersFile_emits filename environment :
  emits_only setup_event (readParametersFile (Σ:=Σ) filename environment).
Proof. unfold readParametersFile. effects. Qed.

Lemma setup_emits args : emits_only setup_event (setup (Σ:=Σ) args).
Proof.
  unfold setup, banner, session_Must_New. effects.
  apply readParametersFile_emits.
Qed.

Lemma setup_keeps_stdin args : keeps_stdin (setup (Σ:=Σ) args).
Proof.
  unfold setup, banner, session_Must_New, readParametersFile. effects.
Qed.

Lemma getLoop_emits pars eb : emits_only get_event (getLoop (Σ:=Σ) pars eb).
Proof.
  revert eb. induction pars as [|par pars IH]; intros eb; simpl.
  - effects.
  - unfold deref_Parameter_Value. effects.
Qed.

Lemma getLoop_keeps_stdin pars eb : keeps_stdin (getLoop (Σ:=Σ) pars eb).
Proof.
  revert eb. induction pars as [|par pars IH]; intros eb; simpl.
  - effects.
  - unfold deref_Parameter_Value. effects.
Qed.

Lemma getBeanstalkOptions_emits session ps :
  emits_only get_event (getBeanstalkOptions (Σ:=Σ) session ps).
Proof. unfold getBeanstalkOptions. effects; apply getLoop_emits. Qed.

Lemma getBeanstalkOptions_keeps_stdin session ps :
  keeps_stdin (getBeanstalkOptions (Σ:=Σ) session ps).
Proof. unfold getBeanstalkOptions. effects; apply getLoop_keeps_stdin. Qed.

Lemma setBody_emits par : emits_only set_event (setBody (Σ:=Σ) par).
Proof. unfold setBody, setValue. effects. Qed.

Lemma setLoop_emits pars : emits_only set_event (setLoop (Σ:=Σ) pars).
Proof.
  induction pars as [|par pars IH]; simpl.
  - effects.
  - effects. apply setBody_emits.
Qed.

Lemma writeToFile_emits output data :
  emits_only output_event (writeToFile (Σ:=Σ) output data).
Proof. unfold writeToFile. effects. Qed.

End Effects.

(** ** The get pipeline *)

Section GetPipeline.
Context {Σ : Type} `{!Env Σ}.
Implicit Types (w : World Σ) (t : list event) (σ : Σ).

(** The two loops of [getBeanstalkOptions] are one loop over the
    concatenation of the two lists. *)
Lemma getLoop_app l1 l2 eb w :
  getLoop (l1 ++ l2) eb w =
  bind (getLoop l1 eb)
       (λ r, match r.2 with
             | Some err => ret r
             | None => getLoop l2 r.1
             end) w.
Proof.
  revert eb w. induction l1 as [|par l1 IH]; intros eb w; [done|].
  simpl. rewrite bind_assoc. apply bind_ext. intros _ w1.
  rewrite bind_assoc. apply bind_ext. intros [o|err] w2; [|done].
  rewrite bind_assoc. apply bind_ext. intros v w3.
  rewrite bind_assoc. apply bind_ext. intros _ w4. apply IH.
Qed.

Lemma getBeanstalkOptions_getLoop session ps w :
  getBeanstalkOptions session ps w =
  getLoop (Component ps ++ External ps) zero_ebOptionSettings w.
Proof.
  unfold getBeanstalkOptions. rewrite getLoop_app.
  apply bind_ext. by intros [eb [err|]] w1.
Qed.

Lemma fetches_length σ paths vs σ' :
  fetches σ paths = Some (vs, σ') → length vs = length paths.
Proof.
  revert σ vs. induction paths as [|path paths IH]; intros σ vs; simpl.
  - by intros [= <- <-].
  - destruct (GetParameter _ σ) as [r σ1].
    destruct (fetched_value r) as [v|]; simpl; [|done].
    destruct (fetches σ1 paths) as [[vs' σ2]|] eqn:Hrest; simpl; [|done].
    intros [= <- <-]. simpl. f_equal. eauto.
Qed.

(** A store that answers every fetch answers every sequence of them. *)
Lemma fetches_total :
  (∀ i σ, ∃ v σ', GetParameter i σ = (fetched v, σ')) →
  ∀ paths σ, is_Some (fetches σ paths).
Proof.
  intros Hall paths. induction paths as [|path paths IH]; intros σ; simpl.
  - by eexists.
  - destruct (Hall (mkGetParameterInput path) σ) as (v & σ1 & ->). simpl.
    destruct (IH σ1) as [[vs σ2] ->]. by eexists.
Qed.

(** When every fetch of the loop succeeds, the loop appends one option
    per parameter, in order, and asks for exactly their paths. *)
Lemma getLoop_fetches pars eb w vs σ' :
  fetches (sys w) (par_Path <$> pars) = Some (vs, σ') →
  ∃ t, getLoop pars eb w =
         (Done (mkEbOptionSettings (Options eb ++ zip_with option_of pars vs),
                None),
          mkWorld σ' (stdin w) (trace w ++ t)) ∧
       get_calls t = par_Path <$> pars.
Proof.
  revert eb w vs. induction pars as [|par pars IH]; intros eb w vs; simpl.
  - intros [= <- <-]. exists []. rewrite !app_nil_r.
    by destruct eb, w.
  - destruct (GetParameter _ (sys w)) as [r σ1] eqn:HG.
    destruct (fetched_value r) as [v|] eqn:Hv; simpl; [|done].
    destruct (fetches σ1 _) as [[vs' σ2]|] eqn:Hrest; simpl; [|done].
    intros [= <- <-].
    destruct r as [[[[[v'|]]|]]|e]; simplify_eq/=.
    unfold stderr_print. rewrite bind_emit.
    erewrite bind_call by exact HG.
    unfold deref_Parameter_Value. simpl. rewrite bind_ret, bind_emit.
    match goal with
    | |- context [getLoop pars ?eb1 ?w1] =>
        destruct (IH eb1 w1 vs' Hrest) as (t & -> & Ht)
    end.
    simpl. eexists. rewrite <-!(assoc_L (++)). split; [done|].
    simpl. by rewrite Ht.
Qed.

(** When the fetches of [pre] succeed and the next one fails, the loop
    returns what it has built for [pre], with the error, and asks for
    nothing after the failing path. *)
Lemma getLoop_fails pre par post eb w vs σ1 err σ2 :
  fetches (sys w) (par_Path <$> pre) = Some (vs, σ1) →
  GetParameter (mkGetParameterInput (par_Path par)) σ1 = (Failed err, σ2) →
  ∃ t, getLoop (pre ++ par :: post) eb w =
         (Done (mkEbOptionSettings (Options eb ++ zip_with option_of pre vs),
                Some err),
          mkWorld σ2 (stdin w) (trace w ++ t)) ∧
       get_calls t = par_Path <$> (pre ++ [par]).
Proof.
  intros Hpre Hfail. rewrite getLoop_app.
  destruct (getLoop_fetches pre eb w vs σ1 Hpre) as (t & Hrun & Ht).
  erewrite bind_Done by exact Hrun. simpl.
  unfold stderr_print. rewrite bind_emit.
  erewrite bind_call by exact Hfail. simpl. unfold ret.
  eexists. rewrite <-!(assoc_L (++)). split; [done|].
  unfold get_calls in *. rewrite omap_app, fmap_app, Ht. done.
Qed.

End GetPipeline.

Section GetClaims.
Context {Σ : Type} `{!Env Σ}.
Implicit Types (w : World Σ) (t : list event) (σ : Σ).

Lemma get_calls_app t1 t2 : get_calls (t1 ++ t2) = get_calls t1 ++ get_calls t2.
Proof. apply omap_app. Qed.

Lemma get_calls_none t : Forall (λ e, ¬ is_get e) t → get_calls t = [].
Proof.
  induction 1 as [|e t He _ IH]; [done|].
  destruct e; simpl in *; done.
Qed.

(** C1: in get mode, when every fetch succeeds, the option list that
    [getBeanstalkOptions] returns has one entry per parameter of the
    component list followed by the external list: its length is
    [len(Component) + len(External)], and its i-th entry is the name of
    the i-th parameter of the concatenation with the value fetched for
    it.  The fetches are made for the paths of the concatenation, in
    that order. *)
Theorem getBeanstalkOptions_all_fetched session ps w vs σ' :
  fetches (sys w) (par_Path <$> (Component ps ++ External ps)) = Some (vs, σ') →
  ∃ eb w' t,
    getBeanstalkOptions session ps w = (Done (eb, None), w') ∧
    sys w' = σ' ∧
    trace w' = trace w ++ t ∧
    get_calls t = par_Path <$> (Component ps ++ External ps) ∧
    length (Options eb) = length (Component ps) + length (External ps) ∧
    ∀ i par, (Component ps ++ External ps) !! i = Some par →
      ∃ v, vs !! i = Some v ∧
           Options eb !! i = Some (mkEbOption (par_Name par) v).
Proof.
  intros Hf. rewrite getBeanstalkOptions_getLoop.
  destruct (getLoop_fetches _ zero_ebOptionSettings w vs σ' Hf)
    as (t & Hrun & Ht).
  apply fetches_length in Hf. rewrite length_fmap in Hf.
  eexists _, _, t. split; [exact Hrun|]. simpl.
  split_and!; [done | done | done | |].
  - by rewrite length_zip_with, Hf, Nat.min_id, length_app.
  - intros i par Hi.
    destruct (lookup_lt_is_Some_2 vs i) as [v Hv].
    { rewrite Hf. by eapply lookup_lt_Some. }
    exists v. split; [done|].
    by rewrite lookup_zip_with, Hi; simpl; rewrite Hv.
Qed.

(** C10: when the fetch of the k-th parameter of the concatenated
    component-then-external sequence fails, after the k-1 fetches
    before it succeeded, [getBeanstalkOptions] returns the error
    together with the options of the first k-1 parameters, in input
    order. *)
Theorem getBeanstalkOptions_partial session ps w pre par post vs σ1 err σ2 :
  Component ps ++ External ps = pre ++ par :: post →
  fetches (sys w) (par_Path <$> pre) = Some (vs, σ1) →
  GetParameter (mkGetParameterInput (par_Path par)) σ1 = (Failed err, σ2) →
  ∃ eb w',
    getBeanstalkOptions session ps w = (Done (eb, Some err), w') ∧
    length (Options eb) = length pre ∧
    ∀ i, i < length pre →
      ∃ p v, pre !! i = Some p ∧ vs !! i = Some v ∧
             Options eb !! i = Some (mkEbOption (par_Name p) v).
Proof.
  intros Hsplit Hpre Hfail. rewrite getBeanstalkOptions_getLoop, Hsplit.
  destruct (getLoop_fails pre par post zero_ebOptionSettings w vs σ1 err σ2
              Hpre Hfail) as (t & Hrun & Ht).
  apply fetches_length in Hpre. rewrite length_fmap in Hpre.
  eexists _, _. split; [exact Hrun|]. simpl. split.
  - by rewrite length_zip_with, Hpre, Nat.min_id.
  - intros i Hi.
    destruct (lookup_lt_is_Some_2 pre i Hi) as [p Hp].
    destruct (lookup_lt_is_Some_2 vs i) as [v Hv]; [by rewrite Hpre|].
    exists p, v. split_and!; [done..|].
    by rewrite lookup_zip_with, Hp; simpl; rewrite Hv.
Qed.

(** C3: in get mode, when the fetch of a parameter fails after the
    fetches before it succeeded, the run ends at once with status 1 and
    a diagnostic on standard error: the failing fetch is the last one
    made, nothing is written to standard output and no output file is
    created or written. *)
Theorem main_get_fetch_failure args w f ps session w1
    pre par post vs σ1 err σ2 :
  setup args w = (Done (f, ps, session), w1) →
  mode f = "get" →
  Component ps ++ External ps = pre ++ par :: post →
  fetches (sys w1) (par_Path <$> pre) = Some (vs, σ1) →
  GetParameter (mkGetParameterInput (par_Path par)) σ1 = (Failed err, σ2) →
  ∃ w' t,
    main args w = (Exited 1, w') ∧
    trace w' = trace w ++ t ∧
    get_calls t = par_Path <$> (pre ++ [par]) ∧
    Forall (λ e, ¬ is_stdout e ∧ ¬ is_file_write e) t ∧
    last t = Some (EvStderr ("Error getting values: " +:+ err +:+ NL)).
Proof.
  intros Hsetup Hmode Hsplit Hpre Hfail.
  destruct (emits_only_run _ _ _ _ _ (setup_emits args) Hsetup)
    as (t0 & Htr0 & Ht0).
  destruct (getLoop_fails pre par post zero_ebOptionSettings w1 vs σ1 err σ2
              Hpre Hfail) as (t1 & Hrun & Ht1).
  rewrite <-Hsplit, <-(getBeanstalkOptions_getLoop session) in Hrun.
  pose proof (emits_only_trace _ _ _ _ _ _
                (getBeanstalkOptions_emits session ps) Hrun eq_refl) as HP1.
  unfold main. erewrite bind_Done by exact Hsetup. simpl.
  rewrite Hmode. unfold runMode. rewrite decide_True by done.
  erewrite bind_Done by exact Hrun. simpl.
  unfold log_Fatal, stderr_print. rewrite bind_emit. unfold os_Exit. simpl.
  eexists _, _. split; [done|]. simpl. rewrite Htr0, <-!(assoc_L (++)).
  split; [done|]. split_and!.
  - rewrite !get_calls_app, Ht1. rewrite get_calls_none; [by rewrite app_nil_r|].
    eapply Forall_impl; [exact Ht0|]. intros []; simpl; tauto.
  - rewrite !Forall_app. split_and!.
    + eapply Forall_impl; [exact Ht0|]. intros []; simpl; tauto.
    + eapply Forall_impl; [exact HP1|]. intros []; simpl; tauto.
    + repeat constructor; simpl; tauto.
  - by rewrite (assoc_L (++)), last_snoc.
Qed.

End GetClaims.

(** ** The input file *)

Section InputFile.
Context {Σ : Type} `{!Env Σ}.
Implicit Types (w : World Σ) (s : list parameter).

(** The loop has rewritten the elements before the index it is at, and
    not yet the others. *)
Lemma prefixLoop_from environment (before rest : list parameter) :
  foldl (prefixBody environment) (before ++ rest)
        (seq (length before) (length rest)) =
  before ++ (prefixed environment <$> rest).
Proof.
  revert before. induction rest as [|par rest IH]; intros before; [done|].
  simpl. unfold prefixBody at 2.
  rewrite list_lookup_middle by done.
  rewrite alter_app_r_alt, Nat.sub_diag by done. simpl.
  fold (prefixed environment par).
  rewrite (cons_middle _ before rest), (assoc_L (++)).
  replace (S (length before)) with (length (before ++ [prefixed environment par]))
    by (rewrite length_app; simpl; lia).
  rewrite IH. by rewrite <-(assoc_L (++)).
Qed.

Lemma prefixLoop_fmap environment s :
  prefixLoop environment s = prefixed environment <$> s.
Proof. apply (prefixLoop_from environment [] s). Qed.

(** C2: for every parameter of the component list and of the external
    list, [readParametersFile] rewrites the path [P] to
    ["/" + environment + P] when the environment is not empty, and
    leaves the parameters as they were read when it is empty. *)
Theorem readParametersFile_paths filename environment w inputFile σ' ps0 :
  ReadFile filename (sys w) = (Ok inputFile, σ') →
  Unmarshal inputFile = (ps0, None) →
  ∃ ps w',
    readParametersFile filename environment w = (Done (ps, None), w') ∧
    (environment ≠ "" →
       Component ps = prefixed environment <$> Component ps0 ∧
       External ps = prefixed environment <$> External ps0) ∧
    (environment = "" → ps = ps0).
Proof.
  intros Hread Hparse. unfold readParametersFile.
  erewrite bind_call by exact Hread. simpl. rewrite Hparse.
  destruct (decide (environment ≠ "")) as [Hne|Heq].
  - eexists _, _. split; [done|]. simpl. split; [|done].
    intros _. by rewrite !prefixLoop_fmap.
  - eexists _, _. split; [done|]. split; [done|]. done.
Qed.

End InputFile.

(** ** The set pipeline *)

Section SetPipeline.
Context {Σ : Type} `{!Env Σ}.
Implicit Types (w : World Σ) (t : list event) (σ : Σ).

Lemma put_calls_app t1 t2 : put_calls (t1 ++ t2) = put_calls t1 ++ put_calls t2.
Proof. apply omap_app. Qed.

Lemma setLoop_app l1 l2 w :
  setLoop (l1 ++ l2) w =
  bind (setLoop l1)
       (λ err, match err with
               | Some err => ret (Some err)
               | None => setLoop l2
               end) w.
Proof.
  revert w. induction l1 as [|par l1 IH]; intros w; [done|].
  simpl. rewrite bind_assoc. apply bind_ext. intros [err|] w1; [done|].
  apply IH.
Qed.

(** The loop from the parameter it has reached. *)
Lemma setLoop_reach pre par post w w1 :
  setLoop pre w = (Done None, w1) →
  setLoop (pre ++ par :: post) w =
  bind (setBody par)
       (λ err, match err with
               | Some err => ret (Some err)
               | None => setLoop post
               end) w1.
Proof. intros Hpre. rewrite setLoop_app. by erewrite bind_Done by exact Hpre. Qed.

(** The body for a parameter that comes with its value. *)
Lemma setBody_given par w r σ2 :
  par_Value par ≠ "" →
  PutParameter (put_input_of par (par_Value par)) (sys w) = (r, σ2) →
  setBody par w =
  (Done (put_error r),
   mkWorld σ2 (stdin w)
     (trace w ++
      EvStdout (PString ("* Setting value for `" +:+ par_Path par +:+
                         "`..." +:+ NL))
      :: put_events par (par_Value par) r)).
Proof.
  intros Hv Hput. unfold setBody, setValue.
  rewrite decide_False by done.
  unfold stdout_print, Println_PutInput, Println_PutOutput.
  rewrite bind_assoc, bind_emit, bind_ret, bind_emit.
  erewrite bind_call by exact Hput. unfold put_events.
  destruct r as [putOutput|err]; simpl.
  - rewrite bind_emit. unfold ret. by norm_trace.
  - unfold ret. by norm_trace.
Qed.

(** The body for a parameter whose value is read, when a line is
    there. *)
Lemma setBody_read par w text rest r σ2 :
  par_Value par = "" →
  ReadString nl (stdin w) = ((text, None), rest) →
  PutParameter (put_input_of par (Replace text NL "")) (sys w) = (r, σ2) →
  setBody par w =
  (Done (put_error r),
   mkWorld σ2 rest
     (trace w ++
      EvStdout (PString ("* Input value for `" +:+ par_Path par +:+ "`: "))
      :: EvReadString text None
      :: put_events par (Replace text NL "") r)).
Proof.
  intros Hv Hread Hput. unfold setBody, setValue.
  rewrite decide_True by done.
  unfold stdout_print, Println_PutInput, Println_PutOutput.
  rewrite bind_assoc, bind_emit, bind_assoc.
  erewrite bind_read by exact Hread. simpl. rewrite bind_ret, bind_emit.
  erewrite bind_call by exact Hput. unfold put_events.
  destruct r as [putOutput|err]; simpl.
  - rewrite bind_emit. unfold ret. by norm_trace.
  - unfold ret. by norm_trace.
Qed.

(** The body when the read fails: nothing is stored. *)
Lemma setBody_read_error par w text err rest :
  par_Value par = "" →
  ReadString nl (stdin w) = ((text, Some err), rest) →
  setBody par w =
  (Done (Some err),
   mkWorld (sys w) rest
     (trace w ++
      [EvStdout (PString ("* Input value for `" +:+ par_Path par +:+ "`: "));
       EvReadString text (Some err)])).
Proof.
  intros Hv Hread. unfold setBody, setValue.
  rewrite decide_True by done. unfold stdout_print.
  rewrite bind_assoc, bind_emit, bind_assoc.
  erewrite bind_read by exact Hread. simpl. rewrite bind_ret.
  unfold ret. by norm_trace.
Qed.

(** Every run of the body ends normally, makes at most one call to
    [PutParameter], for its parameter, and reports no error only if it
    made the call. *)
Lemma setBody_puts par w :
  ∃ err t, (setBody par w).1 = Done err ∧
    trace (setBody par w).2 = trace w ++ t ∧
    ((∃ v, put_calls t = [put_input_of par v]) ∨
     (put_calls t = [] ∧ is_Some err)).
Proof.
  destruct (decide (par_Value par = "")) as [Hv|Hv].
  - destruct (ReadString nl (stdin w)) as [[text [err|]] rest] eqn:Hread.
    + rewrite (setBody_read_error _ _ _ _ _ Hv Hread). simpl.
      eexists _, _. split_and!; [done..|]. right. by eauto.
    + destruct (PutParameter (put_input_of par (Replace text NL "")) (sys w))
        as [r σ2] eqn:Hput.
      rewrite (setBody_read _ _ _ _ _ _ Hv Hread Hput). simpl.
      eexists _, _. split_and!; [done..|]. left. eexists.
      by destruct r.
  - destruct (PutParameter (put_input_of par (par_Value par)) (sys w))
      as [r σ2] eqn:Hput.
    rewrite (setBody_given _ _ _ _ Hv Hput). simpl.
    eexists _, _. split_and!; [done..|]. left. eexists.
    by destruct r.
Qed.

(** The calls to [PutParameter] over a run of the loop: one per
    parameter, in order, up to the parameter the loop stopped at. *)
Lemma setLoop_puts pars w :
  ∃ err t vals, (setLoop pars w).1 = Done err ∧
    trace (setLoop pars w).2 = trace w ++ t ∧
    put_calls t = zip_with put_input_of pars vals ∧
    length vals ≤ length pars ∧
    (err = None → length vals = length pars).
Proof.
  revert w. induction pars as [|par pars IH]; intros w; simpl.
  - exists None, [], []. by rewrite app_nil_r.
  - destruct (setBody_puts par w) as (e & t1 & Hout & Htr & Hcalls).
    unfold bind. destruct (setBody par w) as [o w1]. simpl in *. subst o.
    destruct e as [e|].
    + simpl. destruct Hcalls as [[v Hv]|[Hnone _]].
      * exists (Some e), t1, [v]. rewrite Hv. simpl.
        split_and!; [done | done | by destruct pars | lia | done].
      * exists (Some e), t1, []. rewrite Hnone. simpl.
        split_and!; [done | done | done | lia | done].
    + destruct Hcalls as [[v Hv]|[_ [? ?]]]; [|done].
      destruct (IH w1) as (err & t2 & vals & Hout2 & Htr2 & Hc2 & Hlen & Hall).
      exists err, (t1 ++ t2), (v :: vals).
      rewrite Htr2, Htr, put_calls_app, Hv, Hc2, (assoc_L (++)). simpl.
      split_and!; [done | done | done | lia | ].
      intros ->. by rewrite Hall.
Qed.

End SetPipeline.

Section SetClaims.
Context {Σ : Type} `{!Env Σ}.
Implicit Types (w : World Σ) (t : list event) (σ : Σ).

(** C4: in set mode, [PutParameter] is called for the parameters of the
    component list, in their order, one call each up to the parameter
    the run stops at, and for all of them when the run ends without
    error; the external list has no part in the run, which is the same
    whatever that list holds. *)
Theorem setBeanstalkOptions_component_only session ps w :
  (∀ external,
     setBeanstalkOptions session (mkParameters (Component ps) external) w =
     setBeanstalkOptions session ps w) ∧
  ∃ err t vals,
    (setBeanstalkOptions session ps w).1 = Done err ∧
    trace (setBeanstalkOptions session ps w).2 = trace w ++ t ∧
    put_calls t = zip_with put_input_of (Component ps) vals ∧
    length vals ≤ length (Component ps) ∧
    (err = None → length vals = length (Component ps)).
Proof.
  split; [done|]. unfold setBeanstalkOptions. apply setLoop_puts.
Qed.

(** C5: in set mode, for a component parameter whose [Value] is not
    empty, once the run has reached it: standard input is not read (it
    is handed unchanged to the rest of the run, and the events of the
    parameter hold no read), and [PutParameter] is called with exactly
    that [Value]. *)
Theorem setBeanstalkOptions_given_value session ps pre par post w w1 :
  Component ps = pre ++ par :: post →
  setLoop pre w = (Done None, w1) →
  par_Value par ≠ "" →
  let ssmPar := put_input_of par (par_Value par) in
  let '(r, σ2) := PutParameter ssmPar (sys w1) in
  let w2 :=
    mkWorld σ2 (stdin w1)
      (trace w1 ++
       EvStdout (PString ("* Setting value for `" +:+ par_Path par +:+
                          "`..." +:+ NL))
       :: put_events par (par_Value par) r) in
  put_calls (put_events par (par_Value par) r) = [ssmPar] ∧
  ppi_Value ssmPar = par_Value par ∧
  setBeanstalkOptions session ps w =
    match r with
    | Failed err => (Done (Some err), w2)
    | Ok _ => setLoop post w2
    end.
Proof.
  intros Hsplit Hpre Hv ssmPar.
  destruct (PutParameter ssmPar (sys w1)) as [r σ2] eqn:Hput.
  split; [by destruct r|]. split; [done|].
  unfold setBeanstalkOptions. rewrite Hsplit.
  rewrite (setLoop_reach _ _ _ _ _ Hpre).
  erewrite bind_Done by exact (setBody_given _ _ _ _ Hv Hput).
  by destruct r.
Qed.

(** C6: in set mode, for a component parameter whose [Value] is empty,
    once the run has reached it and a line is read: the line is the
    stored value followed by one newline, the stored value holds no
    newline, and [PutParameter] is called with that value; no other
    byte of the line is removed or changed. *)
Theorem setBeanstalkOptions_read_value session ps pre par post w w1 text rest :
  Component ps = pre ++ par :: post →
  setLoop pre w = (Done None, w1) →
  par_Value par = "" →
  ReadString nl (stdin w1) = ((text, None), rest) →
  ∃ value,
    text = value +:+ NL ∧ (nl ∉ bytes value) ∧
    let '(r, σ2) := PutParameter (put_input_of par value) (sys w1) in
    let w2 :=
      mkWorld σ2 rest
        (trace w1 ++
         EvStdout (PString ("* Input value for `" +:+ par_Path par +:+ "`: "))
         :: EvReadString text None
         :: put_events par value r) in
    put_calls (put_events par value r) = [put_input_of par value] ∧
    setBeanstalkOptions session ps w =
      match r with
      | Failed err => (Done (Some err), w2)
      | Ok _ => setLoop post w2
      end.
Proof.
  intros Hsplit Hpre Hv Hread.
  destruct (ReadString_line _ _ _ _ Hread) as (value & -> & Hnl).
  change (String nl "") with NL in *.
  exists value. split; [done|]. split; [done|].
  destruct (PutParameter (put_input_of par value) (sys w1)) as [r σ2] eqn:Hput.
  split; [by destruct r|].
  unfold setBeanstalkOptions. rewrite Hsplit.
  rewrite (setLoop_reach _ _ _ _ _ Hpre).
  assert (Replace (value +:+ NL) NL "" = value) as Hrep
    by (by apply Replace_line).
  erewrite bind_Done; last first.
  { apply (setBody_read _ _ _ _ r σ2 Hv Hread). by rewrite Hrep. }
  rewrite Hrep. by destruct r.
Qed.

Lemma put_checked_calls t :
  Forall put_checked t → Forall overwrite_String (put_calls t).
Proof.
  induction 1 as [|e t He _ IH]; [constructor|].
  destruct e; simpl in *; try done. by constructor.
Qed.

Lemma runMode_put_checked mode output session ps :
  emits_only put_checked (runMode (Σ:=Σ) mode output session ps).
Proof.
  unfold runMode. effects.
  - eapply emits_only_impl; [|apply getBeanstalkOptions_emits].
    by intros [].
  - eapply emits_only_impl; [|apply writeToFile_emits]. by intros [].
  - eapply emits_only_impl; [|apply setLoop_emits]. by intros [].
Qed.

Lemma main_put_checked args : emits_only put_checked (main (Σ:=Σ) args).
Proof.
  unfold main. effects.
  - eapply emits_only_impl; [|apply setup_emits]. by intros [].
  - apply runMode_put_checked.
Qed.

(** C7: every call to [PutParameter], in the set pipeline and so in
    every run of the program, is made with [Overwrite] true and [Type]
    ["String"]. *)
Theorem put_always_overwrite_String args session ps w :
  (∃ t, trace (setBeanstalkOptions session ps w).2 = trace w ++ t ∧
        Forall overwrite_String (put_calls t)) ∧
  (∃ t, trace (main args w).2 = trace w ++ t ∧
        Forall overwrite_String (put_calls t)).
Proof.
  split.
  - destruct (setLoop_emits (Component ps) w) as (t & Ht & HP).
    exists t. split; [done|]. apply put_checked_calls.
    eapply Forall_impl; [exact HP|]. by intros [].
  - destruct (main_put_checked args w) as (t & Ht & HP).
    exists t. split; [done|]. by apply put_checked_calls.
Qed.

End SetClaims.

(** ** The choice of the pipeline *)

Section ModeClaims.
Context {Σ : Type} `{!Env Σ}.
Implicit Types (w : World Σ) (t : list event) (σ : Σ).

Lemma flag_Parse_snoc args name value :
  flag_Parse (args ++ [(name, value)]) = flag_Set name value (flag_Parse args).
Proof. unfold flag_Parse. by rewrite foldl_app. Qed.

(** Without a mode flag on the command line the mode is the default. *)
Lemma flag_Parse_mode_default args :
  (∀ a, a ∈ args → a.1 ≠ f_mode ∧ a.1 ≠ f_m) →
  mode (flag_Parse args) = "get".
Proof.
  induction args as [|[name value] args IH] using rev_ind; intros Hno; [done|].
  rewrite flag_Parse_snoc.
  assert (name ≠ f_mode ∧ name ≠ f_m) as [? ?].
  { apply (Hno (name, value)). apply elem_of_app. right. by constructor. }
  assert (mode (flag_Parse args) = "get") as Hm.
  { apply IH. intros a Ha. apply Hno, elem_of_app. by left. }
  by destruct name.
Qed.

(** The flags [setup] returns are the ones of the command line. *)
Lemma setup_flags args w f ps session w1 :
  setup args w = (Done (f, ps, session), w1) → f = flag_Parse args.
Proof.
  unfold setup. intros (_ & w2 & _ & Hrest)%bind_Done_inv.
  case_decide; [by apply log_Fatal_not_Done in Hrest|].
  apply bind_Done_inv in Hrest as ([ps' [err|]] & w3 & _ & Hrest);
    [by apply log_Fatal_not_Done in Hrest|].
  apply bind_Done_inv in Hrest as (s & w4 & _ & Hrest).
  unfold ret in Hrest. congruence.
Qed.

(** What follows the first part of a sequence adds its events to the
    trace the first part leaves. *)
Lemma emits_only_after {A B} P (m : M Σ A) (k : A → M Σ B) w :
  (∀ a, emits_only P (k a)) →
  ∃ t, trace (bind m k w).2 = trace (m w).2 ++ t ∧ Forall P t.
Proof.
  intros Hk. unfold bind. destruct (m w) as [[a|c|p] w1]; simpl.
  - apply Hk.
  - exists []. by rewrite app_nil_r.
  - exists []. by rewrite app_nil_r.
Qed.

Lemma main_runMode args w f ps session w1 :
  setup args w = (Done (f, ps, session), w1) →
  main args w = runMode (mode (flag_Parse args)) (output f) session ps w1.
Proof.
  intros Hsetup. unfold main. erewrite bind_Done by exact Hsetup.
  simpl. by rewrite (setup_flags _ _ _ _ _ _ Hsetup).
Qed.

(** C8: the mode is ["get"] unless the command line sets it.  Once the
    flags are parsed, the input file is read and the session is open:
    mode ["get"] runs [getBeanstalkOptions] and then only writes the
    result out; mode ["set"] runs [setBeanstalkOptions] and then only
    reports; every other mode ends the run with status 1 and the
    diagnostic ["Invalid mode: ..."] and nothing else.  With a mode
    that is neither ["get"] nor ["set"] no run returns normally, calls
    the remote store or reads standard input. *)
Theorem mode_selects_pipeline :
  mode flag_defaults = "get" ∧
  (∀ args, (∀ a, a ∈ args → a.1 ≠ f_mode ∧ a.1 ≠ f_m) →
           mode (flag_Parse args) = "get") ∧
  (∀ args w f ps session w1,
     setup args w = (Done (f, ps, session), w1) →
     mode (flag_Parse args) = "get" →
     ∃ t, trace (main args w).2 =
            trace (getBeanstalkOptions session ps w1).2 ++ t ∧
          Forall output_event t) ∧
  (∀ args w f ps session w1,
     setup args w = (Done (f, ps, session), w1) →
     mode (flag_Parse args) = "set" →
     ∃ t, trace (main args w).2 =
            trace (setBeanstalkOptions session ps w1).2 ++ t ∧
          Forall output_event t) ∧
  (∀ args w f ps session w1,
     setup args w = (Done (f, ps, session), w1) →
     mode (flag_Parse args) ≠ "get" →
     mode (flag_Parse args) ≠ "set" →
     main args w =
       (Exited 1,
        mkWorld (sys w1) (stdin w1)
          (trace w1 ++
           [EvStderr ("Invalid mode: " +:+ mode (flag_Parse args) +:+ NL)]))) ∧
  (∀ args w,
     mode (flag_Parse args) ≠ "get" →
     mode (flag_Parse args) ≠ "set" →
     (main args w).1 ≠ Done tt ∧
     stdin (main args w).2 = stdin w ∧
     ∃ t, trace (main args w).2 = trace w ++ t ∧ Forall no_pipeline t).
Proof.
  split; [done|]. split; [apply flag_Parse_mode_default|]. split_and!.
  - intros args w f ps session w1 Hsetup Hmode.
    rewrite (main_runMode _ _ _ _ _ _ Hsetup), Hmode.
    unfold runMode. rewrite decide_True by done.
    apply emits_only_after. intros [eb err]. effects.
    eapply emits_only_impl; [|apply writeToFile_emits]. done.
  - intros args w f ps session w1 Hsetup Hmode.
    rewrite (main_runMode _ _ _ _ _ _ Hsetup), Hmode.
    unfold runMode. rewrite decide_False, decide_True by done.
    apply emits_only_after. intros err. effects.
  - intros args w f ps session w1 Hsetup Hget Hset.
    rewrite (main_runMode _ _ _ _ _ _ Hsetup).
    unfold runMode. by rewrite !decide_False by done.
  - intros args w Hget Hset.
    destruct (setup_emits args w) as (t0 & Ht0 & HP0).
    pose proof (setup_keeps_stdin args w) as Hin.
    destruct (setup args w) as [[[[f ps] session]|c|p] w1] eqn:Hsetup;
      simpl in *.
    + rewrite (main_runMode _ _ _ _ _ _ Hsetup).
      unfold runMode. rewrite !decide_False by done. simpl.
      split; [done|]. split; [done|].
      eexists. rewrite Ht0, <-(assoc_L (++)). split; [done|].
      apply Forall_app. split.
      * eapply Forall_impl; [exact HP0|].
        unfold no_pipeline. intros []; simpl; tauto.
      * repeat constructor; simpl; tauto.
    + unfold main, bind. rewrite Hsetup. simpl.
      split; [done|]. split; [done|]. exists t0. split; [done|].
      eapply Forall_impl; [exact HP0|].
      unfold no_pipeline. intros []; simpl; tauto.
    + unfold main, bind. rewrite Hsetup. simpl.
      split; [done|]. split; [done|]. exists t0. split; [done|].
      eapply Forall_impl; [exact HP0|].
      unfold no_pipeline. intros []; simpl; tauto.
Qed.

End ModeClaims.

(** ** The theorems at work on the in-memory environment *)

Lemma getBeanstalkOptions_all_fetched_witness :
  fetches (sys (fake_world []))
          (par_Path <$> (Component stored_parameters ++ External stored_parameters))
    = Some (["localhost"; "root"], fake_sys) ∧
  ∃ eb w' t,
    getBeanstalkOptions TheSession stored_parameters (fake_world [])
      = (Done (eb, None), w') ∧
    sys w' = fake_sys ∧
    trace w' = trace (fake_world []) ++ t ∧
    get_calls t =
      par_Path <$> (Component stored_parameters ++ External stored_parameters) ∧
    length (Options eb) =
      length (Component stored_parameters) + length (External stored_parameters) ∧
    ∀ i par,
      (Component stored_parameters ++ External stored_parameters) !! i = Some par →
      ∃ v, ["localhost"; "root"] !! i = Some v ∧
           Options eb !! i = Some (mkEbOption (par_Name par) v).
Proof.
  split; [vm_compute; reflexivity|].
  apply (getBeanstalkOptions_all_fetched TheSession stored_parameters
           (fake_world []) ["localhost"; "root"] fake_sys).
  vm_compute; reflexivity.
Defined.

Lemma getBeanstalkOptions_partial_witness :
  ∃ eb w',
    getBeanstalkOptions TheSession sample_parameters (fake_world [])
      = (Done (eb, Some "ParameterNotFound"), w') ∧
    length (Options eb) = 2 ∧
    ∀ i, i < 2 →
      ∃ p v, Component sample_parameters !! i = Some p ∧
             ["localhost"; "root"] !! i = Some v ∧
             Options eb !! i = Some (mkEbOption (par_Name p) v).
Proof.
  apply (getBeanstalkOptions_partial TheSession sample_parameters (fake_world [])
           (Component sample_parameters)
           (mkParameter "API_KEY" "" "/shared/key" "k") []
           ["localhost"; "root"] fake_sys "ParameterNotFound" fake_sys).
  - reflexivity.
  - vm_compute; reflexivity.
  - vm_compute; reflexivity.
Defined.

Lemma main_get_fetch_failure_witness :
  ∃ w' t,
    main [(f_i, "template.yaml")] (fake_world []) = (Exited 1, w') ∧
    trace w' = trace (fake_world []) ++ t ∧
    get_calls t = ["/db/host"; "/db/user"; "/shared/key"] ∧
    Forall (λ e, ¬ is_stdout e ∧ ¬ is_file_write e) t ∧
    last t = Some (EvStderr ("Error getting values: " +:+ "ParameterNotFound" +:+ NL)).
Proof.
  apply (main_get_fetch_failure [(f_i, "template.yaml")] (fake_world [])
           (flag_Parse [(f_i, "template.yaml")]) sample_parameters TheSession
           (setup [(f_i, "template.yaml")] (fake_world [])).2
           (Component sample_parameters)
           (mkParameter "API_KEY" "" "/shared/key" "k") []
           ["localhost"; "root"] fake_sys "ParameterNotFound" fake_sys).
  - vm_compute; reflexivity.
  - reflexivity.
  - reflexivity.
  - vm_compute; reflexivity.
  - vm_compute; reflexivity.
Defined.

Lemma readParametersFile_paths_witness :
  ∃ ps w',
    readParametersFile "template.yaml" "prod" (fake_world [])
      = (Done (ps, None), w') ∧
    par_Path <$> Component ps = ["/prod/db/host"; "/prod/db/user"] ∧
    par_Path <$> External ps = ["/prod/shared/key"].
Proof.
  destruct (readParametersFile_paths "template.yaml" "prod" (fake_world [])
              "template" fake_sys sample_parameters)
    as (ps & w' & Hrun & Hprefix & _).
  - vm_compute; reflexivity.
  - vm_compute; reflexivity.
  - exists ps, w'. split; [exact Hrun|].
    destruct Hprefix as [-> ->]; [discriminate|].
    split; vm_compute; reflexivity.
Defined.

Lemma setBeanstalkOptions_component_only_witness :
  ∃ t vals,
    trace (setBeanstalkOptions TheSession sample_parameters
             (fake_world ["localhost" +:+ NL])).2 = [] ++ t ∧
    put_calls t = zip_with put_input_of (Component sample_parameters) vals ∧
    length vals = 2.
Proof.
  destruct (setBeanstalkOptions_component_only TheSession sample_parameters
              (fake_world ["localhost" +:+ NL]))
    as (_ & err & t & vals & Hout & Htrace & Hcalls & _ & Hall).
  exists t, vals. split; [exact Htrace|]. split; [exact Hcalls|].
  apply Hall. vm_compute in Hout. by injection Hout.
Defined.

Lemma setBeanstalkOptions_given_value_witness :
  let w := fake_world ["localhost" +:+ NL] in
  let pre := [mkParameter "DB_HOST" "database host" "/db/host" ""] in
  let par := mkParameter "DB_USER" "" "/db/user" "admin" in
  let w1 := (setLoop pre w).2 in
  put_calls (put_events par "admin" (Ok (mkPutParameterOutput 2)))
    = [mkPutParameterInput "/db/user" "" "admin" true "String"] ∧
  ∃ w2, stdin w2 = stdin w1 ∧
        setBeanstalkOptions TheSession sample_parameters w = setLoop [] w2.
Proof.
  intros w pre par w1.
  pose proof (setBeanstalkOptions_given_value TheSession sample_parameters
                pre par [] w w1) as Hthm.
  assert (PutParameter (put_input_of par (par_Value par)) (sys w1)
          = (Ok (mkPutParameterOutput 2),
             mkFake (<["/db/user" := "admin"]> (remote (sys w1))) (disk (sys w1))
                    (session_error (sys w1)))) as Hput
    by (vm_compute; reflexivity).
  cbv zeta in Hthm. rewrite Hput in Hthm.
  destruct Hthm as (Hcalls & _ & Hrun).
  - reflexivity.
  - vm_compute; reflexivity.
  - discriminate.
  - split; [exact Hcalls|]. eexists. split; [|exact Hrun]. reflexivity.
Defined.

Lemma setBeanstalkOptions_read_value_witness :
  let ps := mkParameters [mkParameter "DB_USER" "" "/db/user" "admin";
                          mkParameter "DB_HOST" "" "/db/host" ""] [] in
  let w := fake_world ["  a b" +:+ NL; "next" +:+ NL] in
  let w1 := (setLoop [mkParameter "DB_USER" "" "/db/user" "admin"] w).2 in
  ∃ value,
    "  a b" +:+ NL = value +:+ NL ∧ (nl ∉ bytes value) ∧
    put_calls (put_events (mkParameter "DB_HOST" "" "/db/host" "") value
                 (PutParameter
                    (put_input_of (mkParameter "DB_HOST" "" "/db/host" "") value)
                    (sys w1)).1)
      = [put_input_of (mkParameter "DB_HOST" "" "/db/host" "") value].
Proof.
  intros ps w w1.
  destruct (setBeanstalkOptions_read_value TheSession ps
              [mkParameter "DB_USER" "" "/db/user" "admin"]
              (mkParameter "DB_HOST" "" "/db/host" "") [] w w1
              ("  a b" +:+ NL) ["next" +:+ NL])
    as (value & Htext & Hnl & Hrest).
  - reflexivity.
  - vm_compute; reflexivity.
  - reflexivity.
  - vm_compute; reflexivity.
  - exists value. split; [exact Htext|]. split; [exact Hnl|].
    destruct (PutParameter _ (sys w1)) as [r σ2]. exact (proj1 Hrest).
Defined.

Lemma mode_selects_pipeline_witness :
  mode (flag_Parse [(f_i, "template.yaml"); (f_e, "prod")]) = "get" ∧
  (main [(f_i, "template.yaml"); (f_m, "delete")] (fake_world [])).1
    = Exited 1 ∧
  (∃ t, trace (main [(f_i, "template.yaml"); (f_m, "set")]
                 (fake_world ["localhost" +:+ NL])).2 =
        trace (setBeanstalkOptions TheSession sample_parameters
                 (setup [(f_i, "template.yaml"); (f_m, "set")]
                    (fake_world ["localhost" +:+ NL])).2).2 ++ t ∧
        Forall output_event t).
Proof.
  destruct (mode_selects_pipeline (Σ:=Fake))
    as (_ & Hdefault & _ & Hset & Hother & _).
  split_and!.
  - apply Hdefault. intros a Ha.
    apply elem_of_cons in Ha as [->|Ha]; [by split|].
    apply elem_of_cons in Ha as [->|Ha]; [by split|].
    by apply elem_of_nil in Ha.
  - rewrite (Hother [(f_i, "template.yaml"); (f_m, "delete")] (fake_world [])
             (flag_Parse [(f_i, "template.yaml"); (f_m, "delete")])
             sample_parameters TheSession
             (setup [(f_i, "template.yaml"); (f_m, "delete")] (fake_world [])).2).
    + reflexivity.
    + vm_compute; reflexivity.
    + discriminate.
    + discriminate.
  - apply (Hset [(f_i, "template.yaml"); (f_m, "set")]
             (fake_world ["localhost" +:+ NL])
             (flag_Parse [(f_i, "template.yaml"); (f_m, "set")])
             sample_parameters TheSession
             (setup [(f_i, "template.yaml"); (f_m, "set")]
                (fake_world ["localhost" +:+ NL])).2).
    + vm_compute; reflexivity.
    + reflexivity.
Defined.

(** ** Further properties: the start of a run *)

Section Start.
Context {Σ : Type} `{!Env Σ}.
Implicit Types (w : World Σ) (t : list event) (σ : Σ).

Lemma banner_run f w :
  banner f w = (Done tt, mkWorld (sys w) (stdin w) (trace w ++ banner_events f)).
Proof.
  unfold banner, stderr_print. rewrite !bind_emit. unfold emit.
  by norm_trace.
Qed.

Lemma loaded_prefixLoop environment ps0 :
  environment ≠ "" →
  mkParameters (prefixLoop environment (Component ps0))
               (prefixLoop environment (External ps0)) =
  loaded environment ps0.
Proof.
  intros Hne. unfold loaded. rewrite decide_False by done.
  by rewrite !prefixLoop_fmap.
Qed.

Lemma readParametersFile_loaded filename environment w data σ ps0 :
  ReadFile filename (sys w) = (Ok data, σ) →
  Unmarshal data = (ps0, None) →
  readParametersFile filename environment w =
  (Done (loaded environment ps0, None),
   mkWorld σ (stdin w) (trace w ++ [EvReadFile filename (Ok data)])).
Proof.
  intros Hread Hparse. unfold readParametersFile.
  erewrite bind_call by exact Hread. simpl. rewrite Hparse.
  destruct (decide (environment ≠ "")) as [Hne|Heq].
  - by rewrite loaded_prefixLoop.
  - unfold loaded. rewrite decide_True; [done|].
    by destruct (decide (environment = "")).
Qed.

Lemma readParametersFile_read_error filename environment w err σ :
  ReadFile filename (sys w) = (Failed err, σ) →
  readParametersFile filename environment w =
  (Done (zero_parameters, Some err),
   mkWorld σ (stdin w) (trace w ++ [EvReadFile filename (Failed err)])).
Proof.
  intros Hread. unfold readParametersFile.
  by erewrite bind_call by exact Hread.
Qed.

Lemma readParametersFile_parse_error filename environment w data σ ps err :
  ReadFile filename (sys w) = (Ok data, σ) →
  Unmarshal data = (ps, Some err) →
  readParametersFile filename environment w =
  (Done (ps, Some err),
   mkWorld σ (stdin w) (trace w ++ [EvReadFile filename (Ok data)])).
Proof.
  intros Hread Hparse. unfold readParametersFile.
  erewrite bind_call by exact Hread. simpl. by rewrite Hparse.
Qed.

(** X1: [readParametersFile] reports the error of the read or of the
    parse and never ends the process itself.  When the file cannot be
    read it returns the zero parameters and does not parse anything; when
    the parse fails it returns what the parser left, with no path
    rewritten, even under a non-empty environment. *)
Theorem readParametersFile_failure filename environment w :
  (∀ err σ,
     ReadFile filename (sys w) = (Failed err, σ) →
     readParametersFile filename environment w =
     (Done (zero_parameters, Some err),
      mkWorld σ (stdin w) (trace w ++ [EvReadFile filename (Failed err)]))) ∧
  (∀ data σ ps err,
     ReadFile filename (sys w) = (Ok data, σ) →
     Unmarshal data = (ps, Some err) →
     readParametersFile filename environment w =
     (Done (ps, Some err),
      mkWorld σ (stdin w) (trace w ++ [EvReadFile filename (Ok data)]))).
Proof.
  split.
  - intros. by apply readParametersFile_read_error.
  - intros. by apply readParametersFile_parse_error.
Qed.

Lemma setup_run args w data σ1 ps0 session σ2 :
  let f := flag_Parse args in
  input f ≠ "" →
  ReadFile (input f) (sys w) = (Ok data, σ1) →
  Unmarshal data = (ps0, None) →
  NewSessionWithOptions σ1 = (Ok session, σ2) →
  setup args w =
  (Done (f, loaded (environment f) ps0, session),
   mkWorld σ2 (stdin w)
     (trace w ++ banner_events f ++
      [EvReadFile (input f) (Ok data); EvNewSession (Ok session)])).
Proof.
  intros f Hin Hread Hparse Hsess. unfold setup. fold f.
  erewrite bind_Done by apply banner_run.
  rewrite decide_False by done.
  erewrite bind_Done; last first.
  { by apply (readParametersFile_loaded _ _ _ data σ1 ps0). }
  simpl. unfold session_Must_New. rewrite bind_assoc.
  erewrite bind_call by exact Hsess. simpl. rewrite bind_ret. unfold ret.
  by norm_trace.
Qed.

(** X2: a run whose input file can be read and parsed and whose session
    opens passes [setup]: it returns the flags of the command line and
    the parameters of the file, with every path under the environment
    when there is one, after the banner, one file read and one session
    creation, in that order; standard input is untouched. *)
Theorem setup_succeeds args w data σ1 ps0 session σ2 :
  let f := flag_Parse args in
  input f ≠ "" →
  ReadFile (input f) (sys w) = (Ok data, σ1) →
  Unmarshal data = (ps0, None) →
  NewSessionWithOptions σ1 = (Ok session, σ2) →
  setup args w =
  (Done (f, loaded (environment f) ps0, session),
   mkWorld σ2 (stdin w)
     (trace w ++ banner_events f ++
      [EvReadFile (input f) (Ok data); EvNewSession (Ok session)])).
Proof.
  intros f Hin Hread Hparse Hsess.
  by apply (setup_run args w data σ1 ps0 session σ2).
Qed.

(** X3: without an input file name the run ends with status 1 right
    after the banner: no file is read, no session is opened, the outside
    world is left as it was. *)
Theorem main_missing_input args w :
  input (flag_Parse args) = "" →
  main args w =
  (Exited 1,
   mkWorld (sys w) (stdin w)
     (trace w ++ banner_events (flag_Parse args) ++
      [EvStderr ("Missing mandatory argument: `input`" +:+ NL)])).
Proof.
  intros Hin. unfold main, setup.
  rewrite bind_assoc. erewrite bind_Done by apply banner_run.
  rewrite decide_True by done.
  unfold log_Fatal, stderr_print. rewrite !bind_assoc, bind_emit.
  rewrite bind_exit. by norm_trace.
Qed.

(** X4: when the input file cannot be read, or cannot be parsed, the run
    ends with status 1 and a diagnostic that names the file and the
    cause; no session is opened and the remote store is never called. *)
Theorem main_input_file_error args w r σ err :
  let f := flag_Parse args in
  input f ≠ "" →
  ReadFile (input f) (sys w) = (r, σ) →
  (r = Failed err ∨ ∃ data, r = Ok data ∧ (Unmarshal data).2 = Some err) →
  main args w =
  (Exited 1,
   mkWorld σ (stdin w)
     (trace w ++ banner_events f ++
      [EvReadFile (input f) r;
       EvStderr ("Error reading file `" +:+ input f +:+ "`: " +:+ err +:+ NL)])).
Proof.
  intros f Hin Hread Hr. unfold main, setup. fold f.
  rewrite bind_assoc. erewrite bind_Done by apply banner_run.
  rewrite decide_False by done. rewrite bind_assoc.
  assert (∃ ps, readParametersFile (input f) (environment f)
                  (mkWorld (sys w) (stdin w) (trace w ++ banner_events f)) =
                (Done (ps, Some err),
                 mkWorld σ (stdin w)
                   ((trace w ++ banner_events f) ++ [EvReadFile (input f) r])))
    as [ps Hrun].
  { destruct Hr as [->|(data & -> & Hparse)].
    - exists zero_parameters.
      exact (readParametersFile_read_error (input f) (environment f)
               (mkWorld (sys w) (stdin w) (trace w ++ banner_events f))
               err σ Hread).
    - destruct (Unmarshal data) as [ps e] eqn:Hu. simpl in Hparse. subst e.
      exists ps.
      exact (readParametersFile_parse_error (input f) (environment f)
               (mkWorld (sys w) (stdin w) (trace w ++ banner_events f))
               data σ ps err Hread Hu). }
  erewrite bind_Done by exact Hrun. simpl.
  unfold log_Fatal, stderr_print. rewrite !bind_assoc, bind_emit.
  rewrite bind_exit, !append_assoc. by norm_trace.
Qed.

(** X5: when the session cannot be opened the run panics with the error
    of the session, after the input file was read; the remote store is
    never called and nothing is written to standard output. *)
Theorem main_session_failure args w data σ1 ps0 err σ2 :
  let f := flag_Parse args in
  input f ≠ "" →
  ReadFile (input f) (sys w) = (Ok data, σ1) →
  Unmarshal data = (ps0, None) →
  NewSessionWithOptions σ1 = (Failed err, σ2) →
  main args w =
  (Panicked err,
   mkWorld σ2 (stdin w)
     (trace w ++ banner_events f ++
      [EvReadFile (input f) (Ok data); EvNewSession (Failed err)])).
Proof.
  intros f Hin Hread Hparse Hsess. unfold main, setup. fold f.
  rewrite bind_assoc. erewrite bind_Done by apply banner_run.
  rewrite decide_False by done. rewrite bind_assoc.
  erewrite bind_Done; last first.
  { by apply (readParametersFile_loaded _ _ _ data σ1 ps0). }
  simpl. unfold session_Must_New. rewrite !bind_assoc.
  erewrite bind_call by exact Hsess. simpl. rewrite !bind_panic.
  by norm_trace.
Qed.

End Start.

(** ** Further properties: the output of the get pipeline *)

Section Output.
Context {Σ : Type} `{!Env Σ}.
Implicit Types (w : World Σ) (t : list event) (σ : Σ).

Lemma main_from_setup args w f ps session w1 :
  setup args w = (Done (f, ps, session), w1) →
  main args w = runMode (mode f) (output f) session ps w1.
Proof. intros Hsetup. unfold main. by erewrite bind_Done by exact Hsetup. Qed.

Lemma writeToFile_create_error output data w err σ1 :
  Create output (sys w) = (Failed err, σ1) →
  writeToFile output data w =
  (Done (Some err),
   mkWorld σ1 (stdin w) (trace w ++ [EvCreate output (Failed err)])).
Proof.
  intros Hcreate. unfold writeToFile.
  by erewrite bind_call by exact Hcreate.
Qed.

Lemma writeToFile_write_error output data w outFile σ1 n err σ2 :
  Create output (sys w) = (Ok outFile, σ1) →
  Write outFile data σ1 = ((n, Some err), σ2) →
  writeToFile output data w =
  (Done (Some err),
   mkWorld σ2 (stdin w)
     (trace w ++ [EvCreate output (Ok outFile);
                  EvWrite outFile data (n, Some err)])).
Proof.
  intros Hcreate Hwrite. unfold writeToFile.
  erewrite bind_call by exact Hcreate. simpl.
  erewrite bind_call by exact Hwrite. simpl. unfold ret. by norm_trace.
Qed.

Lemma writeToFile_written output data w outFile σ1 n σ2 cerr σ3 :
  Create output (sys w) = (Ok outFile, σ1) →
  Write outFile data σ1 = ((n, None), σ2) →
  Close outFile σ2 = (cerr, σ3) →
  writeToFile output data w =
  (Done cerr,
   mkWorld σ3 (stdin w)
     (trace w ++
      [EvCreate output (Ok outFile);
       EvWrite outFile data (n, None);
       EvStderr (pretty n +:+ " bytes written successfully to `" +:+
                 output +:+ "`" +:+ NL);
       EvClose outFile cerr])).
Proof.
  intros Hcreate Hwrite Hclose. unfold writeToFile, stderr_print.
  erewrite bind_call by exact Hcreate. simpl.
  erewrite bind_call by exact Hwrite. simpl. rewrite bind_emit.
  erewrite bind_call by exact Hclose. simpl.
  destruct cerr; unfold ret; by norm_trace.
Qed.

(** X6: [writeToFile] stops at the first step that fails and returns its
    error.  When the file cannot be created nothing is written; when the
    write fails the file is not closed and no byte count is reported;
    once the write succeeded the count that [Write] returned is reported
    on standard error, the file is closed, and the result is the error of
    [Close], if any. *)
Theorem writeToFile_steps output data w :
  (∀ err σ1,
     Create output (sys w) = (Failed err, σ1) →
     writeToFile output data w =
     (Done (Some err),
      mkWorld σ1 (stdin w) (trace w ++ [EvCreate output (Failed err)]))) ∧
  (∀ outFile σ1 n err σ2,
     Create output (sys w) = (Ok outFile, σ1) →
     Write outFile data σ1 = ((n, Some err), σ2) →
     writeToFile output data w =
     (Done (Some err),
      mkWorld σ2 (stdin w)
        (trace w ++ [EvCreate output (Ok outFile);
                     EvWrite outFile data (n, Some err)]))) ∧
  (∀ outFile σ1 n σ2 cerr σ3,
     Create output (sys w) = (Ok outFile, σ1) →
     Write outFile data σ1 = ((n, None), σ2) →
     Close outFile σ2 = (cerr, σ3) →
     writeToFile output data w =
     (Done cerr,
      mkWorld σ3 (stdin w)
        (trace w ++
         [EvCreate output (Ok outFile);
          EvWrite outFile data (n, None);
          EvStderr (pretty n +:+ " bytes written successfully to `" +:+
                    output +:+ "`" +:+ NL);
          EvClose outFile cerr]))).
Proof.
  split_and!; intros.
  - by apply writeToFile_create_error.
  - by eapply writeToFile_write_error.
  - by eapply writeToFile_written.
Qed.

(** The get pipeline when every fetch succeeds, with its events. *)
Lemma getBeanstalkOptions_fetches session ps w vs σ' :
  fetches (sys w) (par_Path <$> (Component ps ++ External ps)) = Some (vs, σ') →
  ∃ t, getBeanstalkOptions session ps w =
         (Done (mkEbOptionSettings
                  (zip_with option_of (Component ps ++ External ps) vs), None),
          mkWorld σ' (stdin w) (trace w ++ t)) ∧
       get_calls t = par_Path <$> (Component ps ++ External ps) ∧
       Forall get_event t.
Proof.
  intros Hf.
  destruct (getLoop_fetches _ zero_ebOptionSettings w vs σ' Hf)
    as (t & Hrun & Ht).
  rewrite <-(getBeanstalkOptions_getLoop session) in Hrun.
  exists t. split; [exact Hrun|]. split; [exact Ht|].
  by eapply emits_only_trace;
    [apply (getBeanstalkOptions_emits session ps) | exact Hrun |].
Qed.

(** X7: in get mode without an output file, when every fetch succeeds,
    the run returns normally after writing to standard output the
    document marshalled from the options (one per parameter, component
    first, then external, each with its fetched value), followed by a
    newline, and nothing else; no file is created. *)
Theorem main_get_prints args w f ps session w1 vs σ' ebYaml :
  setup args w = (Done (f, ps, session), w1) →
  mode f = "get" →
  output f = "" →
  fetches (sys w1) (par_Path <$> (Component ps ++ External ps)) = Some (vs, σ') →
  Marshal (mkEbOptionSettings
             (zip_with option_of (Component ps ++ External ps) vs)) = Ok ebYaml →
  ∃ t,
    main args w =
    (Done tt,
     mkWorld σ' (stdin w1)
       (trace w1 ++ t ++ [EvStdout (PString (ebYaml +:+ NL))])) ∧
    get_calls t = par_Path <$> (Component ps ++ External ps) ∧
    Forall get_event t.
Proof.
  intros Hsetup Hmode Hout Hf Hyaml.
  destruct (getBeanstalkOptions_fetches session ps w1 vs σ' Hf)
    as (t & Hrun & Hcalls & HP).
  exists t. split; [|done].
  rewrite (main_from_setup _ _ _ _ _ _ Hsetup), Hmode, Hout.
  unfold runMode. rewrite decide_True by done.
  erewrite bind_Done by exact Hrun. simpl. rewrite Hyaml.
  unfold Println, stdout_print, emit. by norm_trace.
Qed.

(** X8: in get mode with an output file, when every fetch and every file
    operation succeeds, the run returns normally after creating the
    file, writing the marshalled document to it in one write, reporting
    the byte count on standard error and closing the file; nothing is
    written to standard output. *)
Theorem main_get_writes_file args w f ps session w1 vs σ' ebYaml
    outFile σ1 n σ2 σ3 :
  setup args w = (Done (f, ps, session), w1) →
  mode f = "get" →
  output f ≠ "" →
  fetches (sys w1) (par_Path <$> (Component ps ++ External ps)) = Some (vs, σ') →
  Marshal (mkEbOptionSettings
             (zip_with option_of (Component ps ++ External ps) vs)) = Ok ebYaml →
  Create (output f) σ' = (Ok outFile, σ1) →
  Write outFile ebYaml σ1 = ((n, None), σ2) →
  Close outFile σ2 = (None, σ3) →
  ∃ t,
    main args w =
    (Done tt,
     mkWorld σ3 (stdin w1)
       (trace w1 ++ t ++
        [EvCreate (output f) (Ok outFile);
         EvWrite outFile ebYaml (n, None);
         EvStderr (pretty n +:+ " bytes written successfully to `" +:+
                   output f +:+ "`" +:+ NL);
         EvClose outFile None])) ∧
    get_calls t = par_Path <$> (Component ps ++ External ps) ∧
    Forall get_event t.
Proof.
  intros Hsetup Hmode Hout Hf Hyaml Hcreate Hwrite Hclose.
  destruct (getBeanstalkOptions_fetches session ps w1 vs σ' Hf)
    as (t & Hrun & Hcalls & HP).
  exists t. split; [|done].
  rewrite (main_from_setup _ _ _ _ _ _ Hsetup), Hmode.
  unfold runMode. rewrite decide_True by done.
  erewrite bind_Done by exact Hrun. simpl. rewrite Hyaml.
  rewrite decide_False by done.
  erewrite bind_Done; last first.
  { by eapply (writeToFile_written _ _ _ outFile σ1 n σ2 None σ3). }
  simpl. unfold ret. by norm_trace.
Qed.

(** X9: in get mode with an output file, when the options are fetched
    and marshalled but [writeToFile] fails, the run ends with status 1;
    its diagnostic names the file, and is the same whatever the error
    was. *)
Theorem main_get_write_failure args w f ps session w1 eb w2 ebYaml err w3 :
  setup args w = (Done (f, ps, session), w1) →
  mode f = "get" →
  output f ≠ "" →
  getBeanstalkOptions session ps w1 = (Done (eb, None), w2) →
  Marshal eb = Ok ebYaml →
  writeToFile (output f) ebYaml w2 = (Done (Some err), w3) →
  main args w =
  (Exited 1,
   mkWorld (sys w3) (stdin w3)
     (trace w3 ++
      [EvStderr ("Error writing to file `" +:+ output f +:+ "`" +:+ NL)])).
Proof.
  intros Hsetup Hmode Hout Hrun Hyaml Hwrite.
  rewrite (main_from_setup _ _ _ _ _ _ Hsetup), Hmode.
  unfold runMode. rewrite decide_True by done.
  erewrite bind_Done by exact Hrun. simpl. rewrite Hyaml.
  rewrite decide_False by done.
  erewrite bind_Done by exact Hwrite. simpl.
  unfold log_Fatal, stderr_print. rewrite bind_emit. unfold os_Exit.
  by rewrite !append_assoc.
Qed.

End Output.

(** ** Further properties: the get pipeline *)

Section GetFurther.
Context {Σ : Type} `{!Env Σ}.
Implicit Types (w : World Σ) (t : list event) (σ : Σ).

(** Whatever the store answers, the loop asks for the paths of its
    parameters in order, up to the one it stops at, and does not end the
    process. *)
Lemma getLoop_calls pars eb w :
  ∃ t k, trace (getLoop pars eb w).2 = trace w ++ t ∧
         get_calls t = take k (par_Path <$> pars) ∧
         ∀ c, (getLoop pars eb w).1 ≠ Exited c.
Proof.
  revert eb w. induction pars as [|par pars IH]; intros eb w.
  - exists [], 0. simpl. by rewrite app_nil_r.
  - simpl. unfold stderr_print. rewrite bind_emit.
    destruct (GetParameter (mkGetParameterInput (par_Path par)) (sys w))
      as [r σ1] eqn:HG.
    erewrite bind_call by exact HG. simpl.
    destruct r as [[[[[v|]]|]]|err]; simpl.
    + unfold deref_Parameter_Value. simpl. rewrite bind_ret, bind_emit.
      match goal with
      | |- context [getLoop pars ?eb1 ?w1] =>
          destruct (IH eb1 w1) as (t & k & Ht & Hcalls & Hexit)
      end.
      eexists (_ :: _ :: _ :: t), (S k). rewrite Ht. simpl.
      split; [by rewrite <-!(assoc_L (++))|]. split; [|done].
      simpl. by rewrite Hcalls.
    + eexists [_; _], 1. simpl. split; [by rewrite <-!(assoc_L (++))|].
      split; [|done]. simpl. by rewrite take_0.
    + eexists [_; _], 1. simpl. split; [by rewrite <-!(assoc_L (++))|].
      split; [|done]. simpl. by rewrite take_0.
    + eexists [_; _], 1. unfold ret. simpl.
      split; [by rewrite <-!(assoc_L (++))|].
      split; [|done]. simpl. by rewrite take_0.
Qed.

(** X10: whatever the remote store answers, [getBeanstalkOptions] only
    writes to standard error and calls [GetParameter]: it stores
    nothing, reads no standard input, writes nothing to standard output
    or to a file, and never exits the process.  The paths it asks for
    are those of the component list followed by the external list, in
    order, up to the parameter it stops at. *)
Theorem getBeanstalkOptions_read_only session ps w :
  ∃ t k,
    trace (getBeanstalkOptions session ps w).2 = trace w ++ t ∧
    Forall get_event t ∧
    get_calls t = take k (par_Path <$> (Component ps ++ External ps)) ∧
    stdin (getBeanstalkOptions session ps w).2 = stdin w ∧
    ∀ c, (getBeanstalkOptions session ps w).1 ≠ Exited c.
Proof.
  destruct (getLoop_calls (Component ps ++ External ps) zero_ebOptionSettings w)
    as (t & k & Ht & Hcalls & Hexit).
  rewrite <-(getBeanstalkOptions_getLoop session) in Ht, Hexit.
  exists t, k. split_and!; [done | | done | | done].
  - destruct (getBeanstalkOptions session ps w) as [r w'] eqn:Hrun.
    by eapply emits_only_trace;
      [apply (getBeanstalkOptions_emits session ps) | exact Hrun |].
  - apply getBeanstalkOptions_keeps_stdin.
Qed.

Lemma getLoop_name_path pars pars' eb w :
  name_path <$> pars = name_path <$> pars' →
  getLoop pars eb w = getLoop pars' eb w.
Proof.
  revert pars' eb w.
  induction pars as [|par pars IH]; intros [|par' pars'] eb w Heq;
    try done.
  injection Heq as Hname Hpath Hrest. simpl. rewrite Hname, Hpath.
  apply bind_ext. intros _ w1. apply bind_ext. intros [o|err] w2; [|done].
  apply bind_ext. intros v w3. apply bind_ext. intros _ w4. by apply IH.
Qed.

(** X11: the get pipeline reads only the name and the path of a
    parameter: two parameter sets with the same names and paths, in the
    same order, give the same run, whatever their descriptions and
    values are. *)
Theorem getBeanstalkOptions_name_path session ps ps' w :
  name_path <$> Component ps = name_path <$> Component ps' →
  name_path <$> External ps = name_path <$> External ps' →
  getBeanstalkOptions session ps w = getBeanstalkOptions session ps' w.
Proof.
  intros HC HE. rewrite !getBeanstalkOptions_getLoop.
  apply getLoop_name_path. by rewrite !fmap_app, HC, HE.
Qed.

Lemma loaded_paths environment ps0 :
  environment ≠ "" →
  par_Path <$> (Component (loaded environment ps0) ++
                External (loaded environment ps0)) =
  (λ par, "/" +:+ environment +:+ par_Path par)
    <$> (Component ps0 ++ External ps0).
Proof.
  intros Hne. unfold loaded. rewrite decide_False by done. simpl.
  by rewrite <-fmap_app, <-list_fmap_compose.
Qed.

Lemma runMode_get_calls output session ps w :
  ∃ t k, trace (runMode "get" output session ps w).2 = trace w ++ t ∧
         get_calls t = take k (par_Path <$> (Component ps ++ External ps)).
Proof.
  destruct (getLoop_calls (Component ps ++ External ps) zero_ebOptionSettings w)
    as (t & k & Ht & Hcalls & _).
  rewrite <-(getBeanstalkOptions_getLoop session) in Ht.
  assert (∃ t', trace (runMode "get" output session ps w).2 =
                trace (getBeanstalkOptions session ps w).2 ++ t' ∧
                Forall output_event t') as (t' & Ht' & HP').
  { unfold runMode. rewrite decide_True by done.
    apply emits_only_after. intros [eb err]. effects.
    eapply emits_only_impl; [|apply writeToFile_emits]. done. }
  exists (t ++ t'), k. rewrite Ht', Ht, (assoc_L (++)). split; [done|].
  rewrite get_calls_app, Hcalls, get_calls_none; [by rewrite app_nil_r|].
  eapply Forall_impl; [exact HP'|]. intros []; simpl; tauto.
Qed.

(** X12: in get mode under a non-empty environment [E], once the input
    file is read and the session is open, every path asked of the remote
    store is ["/" + E + P] for a path [P] of the input file: the paths
    asked are those of the component list followed by the external list,
    each under the environment, in order, up to the parameter the run
    stops at. *)
Theorem main_get_environment_paths args w data σ1 ps0 session σ2 :
  let f := flag_Parse args in
  input f ≠ "" →
  ReadFile (input f) (sys w) = (Ok data, σ1) →
  Unmarshal data = (ps0, None) →
  NewSessionWithOptions σ1 = (Ok session, σ2) →
  mode f = "get" →
  environment f ≠ "" →
  ∃ t k,
    trace (main args w).2 = trace w ++ t ∧
    get_calls t =
      take k ((λ par, "/" +:+ environment f +:+ par_Path par)
                <$> (Component ps0 ++ External ps0)).
Proof.
  intros f Hin Hread Hparse Hsess Hmode Henv.
  pose proof (setup_run args w data σ1 ps0 session σ2 Hin Hread Hparse Hsess)
    as Hsetup. fold f in Hsetup.
  rewrite (main_from_setup _ _ _ _ _ _ Hsetup), Hmode.
  match goal with
  | |- context [runMode "get" ?o ?s ?ps ?w1] =>
      destruct (runMode_get_calls o s ps w1) as (t & k & Ht & Hcalls)
  end.
  rewrite loaded_paths in Hcalls by done.
  eexists _, k. rewrite Ht. simpl. rewrite <-!(assoc_L (++)).
  split; [done|].
  by rewrite !get_calls_app, Hcalls.
Qed.

End GetFurther.

(** ** Further properties: the set pipeline *)

Section SetFurther.
Context {Σ : Type} `{!Env Σ}.
Implicit Types (w : World Σ) (t : list event) (σ : Σ).

Lemma setBody_given_events par w :
  par_Value par ≠ "" →
  ∃ err t, (setBody par w).1 = Done err ∧
    stdin (setBody par w).2 = stdin w ∧
    trace (setBody par w).2 = trace w ++ t ∧
    Forall (λ e, ¬ is_read e) t ∧
    put_calls t = [given_input par].
Proof.
  intros Hv.
  destruct (PutParameter (put_input_of par (par_Value par)) (sys w))
    as [r σ2] eqn:Hput.
  rewrite (setBody_given _ _ _ _ Hv Hput). simpl.
  eexists _, _. split_and!; [done..| |].
  - destruct r; repeat constructor; simpl; tauto.
  - by destruct r.
Qed.

Lemma setLoop_given pars w :
  Forall (λ par, par_Value par ≠ "") pars →
  ∃ err t k, (setLoop pars w).1 = Done err ∧
    stdin (setLoop pars w).2 = stdin w ∧
    trace (setLoop pars w).2 = trace w ++ t ∧
    Forall (λ e, ¬ is_read e) t ∧
    put_calls t = take k (given_input <$> pars) ∧
    (err = None → k = length pars).
Proof.
  intros Hall. revert w.
  induction Hall as [|par pars Hv _ IH]; intros w; simpl.
  - exists None, [], 0. by rewrite app_nil_r.
  - destruct (setBody_given_events par w Hv)
      as (e & t1 & Hout & Hin & Htr & Hnr & Hcalls).
    unfold bind. destruct (setBody par w) as [o w1]. simpl in *. subst o.
    destruct e as [e|].
    + exists (Some e), t1, 1. simpl. rewrite take_0.
      split_and!; done.
    + destruct (IH w1) as (err & t2 & k & Hout2 & Hin2 & Htr2 & Hnr2 & Hc2 & Hk).
      exists err, (t1 ++ t2), (S k).
      rewrite Htr2, Htr, Hin2, Hin, put_calls_app, Hcalls, Hc2, (assoc_L (++)).
      split_and!; [done | done | done | by apply Forall_app | done |].
      intros ->. by rewrite Hk.
Qed.

(** X13: when every component parameter comes with its value, the set
    pipeline is not interactive: standard input is left as it was and no
    read is made.  The values stored are the given ones, for the
    component parameters in order, up to the parameter the run stops at,
    and for all of them when the run ends without error. *)
Theorem setBeanstalkOptions_not_interactive session ps w :
  Forall (λ par, par_Value par ≠ "") (Component ps) →
  ∃ err t k,
    (setBeanstalkOptions session ps w).1 = Done err ∧
    stdin (setBeanstalkOptions session ps w).2 = stdin w ∧
    trace (setBeanstalkOptions session ps w).2 = trace w ++ t ∧
    Forall (λ e, ¬ is_read e) t ∧
    put_calls t = take k (given_input <$> Component ps) ∧
    (err = None → k = length (Component ps)).
Proof.
  intros Hall. unfold setBeanstalkOptions.
  by apply setLoop_given.
Qed.

Lemma setLoop_stores pars w outs σ1 :
  Forall (λ par, par_Value par ≠ "") pars →
  stores (sys w) (given_input <$> pars) = Some (outs, σ1) →
  ∃ t, setLoop pars w = (Done None, mkWorld σ1 (stdin w) (trace w ++ t)) ∧
       put_calls t = given_input <$> pars.
Proof.
  intros Hall. revert w outs.
  induction Hall as [|par pars Hv _ IH]; intros w outs; simpl.
  - intros [= <- <-]. exists []. rewrite app_nil_r. by destruct w.
  - destruct (PutParameter (given_input par) (sys w)) as [[o|err] σ2] eqn:Hput;
      [|done].
    destruct (stores σ2 _) as [[os σ3]|] eqn:Hrest; simpl; [|done].
    intros [= <- <-].
    erewrite bind_Done by exact (setBody_given _ _ _ _ Hv Hput). simpl.
    match goal with
    | |- context [setLoop pars ?w1] =>
        destruct (IH w1 os Hrest) as (t & -> & Hcalls)
    end.
    simpl. eexists. rewrite <-(assoc_L (++)). split; [done|].
    simpl. by rewrite Hcalls.
Qed.

Lemma setLoop_first_failure pre par post w outs σ1 err σ2 :
  Forall (λ par, par_Value par ≠ "") (pre ++ [par]) →
  stores (sys w) (given_input <$> pre) = Some (outs, σ1) →
  PutParameter (given_input par) σ1 = (Failed err, σ2) →
  ∃ t,
    setLoop (pre ++ par :: post) w =
      (Done (Some err), mkWorld σ2 (stdin w) (trace w ++ t)) ∧
    put_calls t = given_input <$> (pre ++ [par]).
Proof.
  intros [Hpre Hpar]%Forall_app Hstores Hfail.
  rewrite Forall_singleton in Hpar.
  destruct (setLoop_stores pre w outs σ1 Hpre Hstores) as (t & Hrun & Hcalls).
  rewrite (setLoop_reach _ _ _ _ _ Hrun).
  erewrite bind_Done
    by exact (setBody_given par (mkWorld σ1 (stdin w) (trace w ++ t))
                (Failed err) σ2 Hpar Hfail).
  simpl. unfold ret. eexists. rewrite <-(assoc_L (++)). split; [done|].
  by rewrite put_calls_app, fmap_app, Hcalls.
Qed.

(** X14: the set pipeline does not undo anything.  When the stores of
    the first component parameters succeed and the next one fails (all
    with given values), the run returns that error in the state the
    failed call leaves after the earlier stores; the calls made are those
    of the parameters up to the failing one, and no later parameter is
    stored. *)
Theorem setBeanstalkOptions_first_failure session ps pre par post w
    outs σ1 err σ2 :
  Component ps = pre ++ par :: post →
  Forall (λ par, par_Value par ≠ "") (pre ++ [par]) →
  stores (sys w) (given_input <$> pre) = Some (outs, σ1) →
  PutParameter (given_input par) σ1 = (Failed err, σ2) →
  ∃ t,
    setBeanstalkOptions session ps w =
      (Done (Some err), mkWorld σ2 (stdin w) (trace w ++ t)) ∧
    put_calls t = given_input <$> (pre ++ [par]).
Proof.
  intros Hsplit Hall Hstores Hfail.
  unfold setBeanstalkOptions. rewrite Hsplit.
  by eapply setLoop_first_failure.
Qed.



Lemma ReadString_no_delim delim chunks :
  Forall (λ ch, delim ∉ bytes ch) chunks →
  ReadString delim chunks = ((foldr String.append "" chunks, Some "EOF"), []).
Proof.
  induction 1 as [|ch chunks Hch _ IH]; [done|].
  simpl. destruct (cut delim ch) as [[line rest]|] eqn:Hcut.
  - destruct (cut_Some _ _ _ _ Hcut) as (body & -> & _ & ->).
    exfalso. apply Hch. rewrite !bytes_append. set_solver.
  - by rewrite IH.
Qed.

(** X16: when the run reaches a component parameter without value and
    what is left of standard input holds no newline, the prompt is
    written, all of the input is consumed, and the run returns the error
    ["EOF"]: the text read is dropped, and neither this parameter nor a
    later one is stored. *)
Theorem setBeanstalkOptions_no_newline session ps pre par post w w1 :
  Component ps = pre ++ par :: post →
  setLoop pre w = (Done None, w1) →
  par_Value par = "" →
  Forall (λ ch, nl ∉ bytes ch) (stdin w1) →
  setBeanstalkOptions session ps w =
  (Done (Some "EOF"),
   mkWorld (sys w1) []
     (trace w1 ++
      [EvStdout (PString ("* Input value for `" +:+ par_Path par +:+ "`: "));
       EvReadString (foldr String.append "" (stdin w1)) (Some "EOF")])).
Proof.
  intros Hsplit Hpre Hv Hno.
  unfold setBeanstalkOptions. rewrite Hsplit.
  rewrite (setLoop_reach _ _ _ _ _ Hpre).
  erewrite bind_Done; last first.
  { apply (setBody_read_error par w1 (foldr String.append "" (stdin w1))
             "EOF" [] Hv).
    by apply ReadString_no_delim. }
  done.
Qed.

End SetFurther.

(** ** Further properties: the two modes and the flags *)

Section ModeFurther.
Context {Σ : Type} `{!Env Σ}.
Implicit Types (w : World Σ) (t : list event) (σ : Σ).

Lemma main_emits P args :
  emits_only P (setup (Σ:=Σ) args) →
  (∀ output session ps,
     emits_only P (runMode (Σ:=Σ) (mode (flag_Parse args)) output session ps)) →
  emits_only P (main (Σ:=Σ) args).
Proof.
  intros Hs Hr w. destruct (Hs w) as (t0 & Ht0 & HP0).
  destruct (setup args w) as [[[[f ps] session]|c|p] w1] eqn:Hsetup;
    simpl in *.
  - rewrite (main_from_setup _ _ _ _ _ _ Hsetup).
    rewrite (setup_flags _ _ _ _ _ _ Hsetup).
    destruct (Hr (output (flag_Parse args)) session ps w1) as (t1 & Ht1 & HP1).
    exists (t0 ++ t1). rewrite Ht1, Ht0, (assoc_L (++)).
    split; [done|]. by apply Forall_app.
  - unfold main, bind. rewrite Hsetup. by exists t0.
  - unfold main, bind. rewrite Hsetup. by exists t0.
Qed.

Lemma writeToFile_keeps_stdin output data :
  keeps_stdin (writeToFile (Σ:=Σ) output data).
Proof. unfold writeToFile. effects. Qed.

Lemma runMode_get_keeps_stdin output session ps :
  keeps_stdin (runMode (Σ:=Σ) "get" output session ps).
Proof.
  unfold runMode. rewrite decide_True by done. effects.
  - apply getBeanstalkOptions_keeps_stdin.
  - apply writeToFile_keeps_stdin.
Qed.

Lemma runMode_get_emits output session ps :
  emits_only (λ e, ¬ is_put e ∧ ¬ is_read e)
             (runMode (Σ:=Σ) "get" output session ps).
Proof.
  unfold runMode. rewrite decide_True by done. effects; try tauto.
  - eapply emits_only_impl; [|apply getBeanstalkOptions_emits].
    intros []; simpl; tauto.
  - eapply emits_only_impl; [|apply writeToFile_emits].
    intros []; simpl; tauto.
Qed.

Lemma runMode_set_emits output session ps :
  emits_only (λ e, ¬ is_get e ∧ ¬ is_file_write e)
             (runMode (Σ:=Σ) "set" output session ps).
Proof.
  unfold runMode. rewrite decide_False, decide_True by done.
  effects; try tauto.
  eapply emits_only_impl; [|apply setLoop_emits].
  intros []; simpl; tauto.
Qed.

(** X17: the two modes keep apart.  A run in get mode never calls
    [PutParameter] and never reads standard input, which it leaves as it
    was; a run in set mode never calls [GetParameter] and never creates,
    writes or closes a file.  This holds for every run, whether it ends
    normally or not. *)
Theorem modes_keep_apart args w :
  (mode (flag_Parse args) = "get" →
   stdin (main args w).2 = stdin w ∧
   ∃ t, trace (main args w).2 = trace w ++ t ∧
        Forall (λ e, ¬ is_put e ∧ ¬ is_read e) t) ∧
  (mode (flag_Parse args) = "set" →
   ∃ t, trace (main args w).2 = trace w ++ t ∧
        Forall (λ e, ¬ is_get e ∧ ¬ is_file_write e) t).
Proof.
  split; intros Hmode.
  - split.
    + pose proof (setup_keeps_stdin args w) as Hin.
      destruct (setup args w) as [[[[f ps] session]|c|p] w1] eqn:Hsetup;
        simpl in *.
      * rewrite (main_from_setup _ _ _ _ _ _ Hsetup).
        rewrite (setup_flags _ _ _ _ _ _ Hsetup), Hmode.
        by rewrite runMode_get_keeps_stdin.
      * unfold main, bind. by rewrite Hsetup.
      * unfold main, bind. by rewrite Hsetup.
    + apply main_emits.
      * eapply emits_only_impl; [|apply setup_emits]. intros []; simpl; tauto.
      * intros. rewrite Hmode. apply runMode_get_emits.
  - apply main_emits.
    + eapply emits_only_impl; [|apply setup_emits]. intros []; simpl; tauto.
    + intros. rewrite Hmode. apply runMode_set_emits.
Qed.

(** Flags that do not set the mode leave it as it is. *)
Lemma mode_foldl_other f args :
  (∀ a, a ∈ args → ¬ is_mode_flag a.1) →
  mode (foldl (λ f a, flag_Set a.1 a.2 f) f args) = mode f.
Proof.
  revert f. induction args as [|[name value] args IH]; intros f Hno; [done|].
  simpl. rewrite IH.
  - assert (¬ is_mode_flag name) as Hname.
    { apply (Hno (name, value)). by left. }
    unfold is_mode_flag in Hname. destruct name; simpl; tauto.
  - intros a Ha. apply Hno. by right.
Qed.

(** X18: a flag may be given more than once and under either of its
    names; for the mode the last occurrence of [-mode] or [-m] on the
    command line decides, whatever comes before it. *)
Theorem flag_Parse_last_mode before name value after :
  is_mode_flag name →
  (∀ a, a ∈ after → ¬ is_mode_flag a.1) →
  mode (flag_Parse (before ++ (name, value) :: after)) = value.
Proof.
  intros Hname Hafter. unfold flag_Parse.
  rewrite foldl_app. simpl. rewrite mode_foldl_other by done.
  by destruct Hname as [-> | ->].
Qed.

(** X19: in set mode, when every component parameter comes with its
    value and every store succeeds, the run returns normally in the
    state the stores leave; the calls to [PutParameter] are those of the
    component parameters with their given values, in order, and standard
    input is untouched. *)
Theorem main_set_stores_all args w f ps session w1 outs σ' :
  setup args w = (Done (f, ps, session), w1) →
  mode f = "set" →
  Forall (λ par, par_Value par ≠ "") (Component ps) →
  stores (sys w1) (given_input <$> Component ps) = Some (outs, σ') →
  ∃ t,
    main args w = (Done tt, mkWorld σ' (stdin w1) (trace w1 ++ t)) ∧
    put_calls t = given_input <$> Component ps.
Proof.
  intros Hsetup Hmode Hall Hstores.
  destruct (setLoop_stores _ w1 outs σ' Hall Hstores) as (t & Hrun & Hcalls).
  exists t. split; [|done].
  rewrite (main_from_setup _ _ _ _ _ _ Hsetup), Hmode.
  unfold runMode. rewrite decide_False, decide_True by done.
  unfold setBeanstalkOptions. by erewrite bind_Done by exact Hrun.
Qed.

(** X20: in set mode, when the stores of the first component parameters
    succeed and the next one fails (all with given values), the run ends
    with status 1 and the diagnostic ["Error setting values: ..."] with
    the error of the store; the earlier stores were made and stay, and
    no later parameter is stored. *)
Theorem main_set_store_failure args w f ps session w1 pre par post
    outs σ1 err σ2 :
  setup args w = (Done (f, ps, session), w1) →
  mode f = "set" →
  Component ps = pre ++ par :: post →
  Forall (λ par, par_Value par ≠ "") (pre ++ [par]) →
  stores (sys w1) (given_input <$> pre) = Some (outs, σ1) →
  PutParameter (given_input par) σ1 = (Failed err, σ2) →
  ∃ t,
    main args w =
    (Exited 1,
     mkWorld σ2 (stdin w1)
       (trace w1 ++ t ++
        [EvStderr ("Error setting values: " +:+ err +:+ NL)])) ∧
    put_calls t = given_input <$> (pre ++ [par]).
Proof.
  intros Hsetup Hmode Hsplit Hall Hstores Hfail.
  destruct (setLoop_first_failure pre par post w1 outs σ1 err σ2
              Hall Hstores Hfail) as (t & Hrun & Hcalls).
  exists t. split; [|done].
  rewrite (main_from_setup _ _ _ _ _ _ Hsetup), Hmode.
  unfold runMode. rewrite decide_False, decide_True by done.
  unfold setBeanstalkOptions. rewrite Hsplit.
  erewrite bind_Done by exact Hrun. simpl.
  unfold log_Fatal, stderr_print. rewrite bind_emit. unfold os_Exit.
  by norm_trace.
Qed.

End ModeFurther.

(** ** The further properties at work *)

Lemma readParametersFile_failure_witness :
  (readParametersFile "missing.yaml" "prod" (fake_world [])).1 =
  Done (zero_parameters, Some "open missing.yaml: no such file or directory").
Proof.
  rewrite (proj1 (readParametersFile_failure "missing.yaml" "prod" (fake_world []))
             "open missing.yaml: no such file or directory" fake_sys).
  - reflexivity.
  - vm_compute; reflexivity.
Defined.

Lemma setup_succeeds_witness :
  (setup [(f_i, "template.yaml"); (f_e, "prod")] (fake_world [])).1 =
  Done (flag_Parse [(f_i, "template.yaml"); (f_e, "prod")],
        loaded "prod" sample_parameters, TheSession).
Proof.
  pose proof (setup_succeeds [(f_i, "template.yaml"); (f_e, "prod")]
                (fake_world []) "template" fake_sys sample_parameters
                TheSession fake_sys) as Hthm.
  cbv zeta in Hthm. rewrite Hthm.
  - reflexivity.
  - vm_compute; discriminate.
  - vm_compute; reflexivity.
  - vm_compute; reflexivity.
  - vm_compute; reflexivity.
Defined.

Lemma main_missing_input_witness :
  (main [(f_m, "set"); (f_o, "out.config")] (fake_world [])).1 = Exited 1 ∧
  sys (main [(f_m, "set"); (f_o, "out.config")] (fake_world [])).2 = fake_sys.
Proof.
  rewrite (main_missing_input [(f_m, "set"); (f_o, "out.config")] (fake_world [])).
  - split; reflexivity.
  - reflexivity.
Defined.

Lemma main_input_file_error_witness :
  (main [(f_i, "missing.yaml")] (fake_world [])).1 = Exited 1 ∧
  last (trace (main [(f_i, "missing.yaml")] (fake_world [])).2) =
  Some (EvStderr ("Error reading file `" +:+ "missing.yaml" +:+ "`: " +:+
                  "open missing.yaml: no such file or directory" +:+ NL)).
Proof.
  pose proof (main_input_file_error [(f_i, "missing.yaml")] (fake_world [])
                (Failed "open missing.yaml: no such file or directory") fake_sys
                "open missing.yaml: no such file or directory") as Hthm.
  cbv zeta in Hthm. rewrite Hthm.
  - split; reflexivity.
  - vm_compute; discriminate.
  - vm_compute; reflexivity.
  - by left.
Defined.

Lemma main_session_failure_witness :
  (main [(f_i, "template.yaml")] offline_world).1 =
  Panicked "NoCredentialProviders".
Proof.
  pose proof (main_session_failure [(f_i, "template.yaml")] offline_world
                "template" offline_sys sample_parameters
                "NoCredentialProviders" offline_sys) as Hthm.
  cbv zeta in Hthm. rewrite Hthm.
  - reflexivity.
  - vm_compute; discriminate.
  - vm_compute; reflexivity.
  - vm_compute; reflexivity.
  - vm_compute; reflexivity.
Defined.

Lemma writeToFile_steps_witness :
  (writeToFile "out.config" "data" (restricted_world [])).1 =
    Done (Some "open out.config: permission denied") ∧
  (writeToFile "out.config" "data" (fake_world [])).1 = Done None.
Proof.
  split.
  - rewrite (proj1 (writeToFile_steps "out.config" "data" (restricted_world []))
               "open out.config: permission denied" (mkRestricted full_sys)).
    + reflexivity.
    + vm_compute; reflexivity.
  - rewrite (proj2 (proj2 (writeToFile_steps "out.config" "data" (fake_world [])))
               "out.config"
               (Create "out.config" fake_sys).2 4
               (Write "out.config" "data" (Create "out.config" fake_sys).2).2
               None
               (Write "out.config" "data" (Create "out.config" fake_sys).2).2).
    + reflexivity.
    + vm_compute; reflexivity.
    + vm_compute; reflexivity.
    + vm_compute; reflexivity.
Defined.

Lemma main_get_prints_witness :
  (main [(f_i, "template.yaml")] (full_world [])).1 = Done tt.
Proof.
  destruct (main_get_prints [(f_i, "template.yaml")] (full_world [])
              (flag_Parse [(f_i, "template.yaml")]) sample_parameters TheSession
              (setup [(f_i, "template.yaml")] (full_world [])).2
              ["localhost"; "root"; "s3cr3t"] full_sys
              ("option_settings:" +:+ NL +:+
               fake_render
                 (mkEbOptionSettings
                    (zip_with option_of
                       (Component sample_parameters ++ External sample_parameters)
                       ["localhost"; "root"; "s3cr3t"]))))
    as (t & Hrun & _).
  - vm_compute; reflexivity.
  - reflexivity.
  - reflexivity.
  - vm_compute; reflexivity.
  - reflexivity.
  - by rewrite Hrun.
Defined.

Lemma main_get_writes_file_witness :
  (main [(f_i, "template.yaml"); (f_o, "out.config")] (full_world [])).1
  = Done tt.
Proof.
  set (args := [(f_i, "template.yaml"); (f_o, "out.config")]).
  set (ebYaml := "option_settings:" +:+ NL +:+
                 fake_render
                   (mkEbOptionSettings
                      (zip_with option_of
                         (Component sample_parameters ++ External sample_parameters)
                         ["localhost"; "root"; "s3cr3t"]))).
  destruct (main_get_writes_file args (full_world [])
              (flag_Parse args) sample_parameters TheSession
              (setup args (full_world [])).2
              ["localhost"; "root"; "s3cr3t"] full_sys ebYaml
              "out.config"
              (Create "out.config" full_sys).2
              (String.length ebYaml)
              (Write "out.config" ebYaml (Create "out.config" full_sys).2).2
              (Write "out.config" ebYaml (Create "out.config" full_sys).2).2)
    as (t & Hrun & _).
  - vm_compute; reflexivity.
  - reflexivity.
  - discriminate.
  - vm_compute; reflexivity.
  - reflexivity.
  - vm_compute; reflexivity.
  - vm_compute; reflexivity.
  - vm_compute; reflexivity.
  - by rewrite Hrun.
Defined.

Lemma main_get_write_failure_witness :
  (main [(f_i, "template.yaml"); (f_o, "out.config")] (restricted_world [])).1
  = Exited 1.
Proof.
  set (args := [(f_i, "template.yaml"); (f_o, "out.config")]).
  set (w1 := (setup args (restricted_world [])).2).
  set (eb := mkEbOptionSettings
               (zip_with option_of
                  (Component sample_parameters ++ External sample_parameters)
                  ["localhost"; "root"; "s3cr3t"])).
  set (ebYaml := "option_settings:" +:+ NL +:+ fake_render eb).
  set (w2 := (getBeanstalkOptions TheSession sample_parameters w1).2).
  rewrite (main_get_write_failure args (restricted_world [])
             (flag_Parse args) sample_parameters TheSession w1 eb w2 ebYaml
             "open out.config: permission denied"
             (writeToFile "out.config" ebYaml w2).2).
  - reflexivity.
  - vm_compute; reflexivity.
  - reflexivity.
  - discriminate.
  - vm_compute; reflexivity.
  - reflexivity.
  - vm_compute; reflexivity.
Defined.

Lemma getBeanstalkOptions_name_path_witness :
  getBeanstalkOptions TheSession sample_parameters (fake_world []) =
  getBeanstalkOptions TheSession
    (mkParameters
       [mkParameter "DB_HOST" "" "/db/host" "other";
        mkParameter "DB_USER" "the user" "/db/user" ""]
       [mkParameter "API_KEY" "key" "/shared/key" ""])
    (fake_world []).
Proof.
  apply getBeanstalkOptions_name_path; reflexivity.
Defined.

Lemma main_get_environment_paths_witness :
  ∃ t k,
    trace (main [(f_i, "template.yaml"); (f_e, "prod")] (fake_world [])).2
      = [] ++ t ∧
    get_calls t =
      take k ["/prod/db/host"; "/prod/db/user"; "/prod/shared/key"].
Proof.
  apply (main_get_environment_paths [(f_i, "template.yaml"); (f_e, "prod")]
           (fake_world []) "template" fake_sys sample_parameters
           TheSession fake_sys).
  - vm_compute; discriminate.
  - vm_compute; reflexivity.
  - vm_compute; reflexivity.
  - vm_compute; reflexivity.
  - reflexivity.
  - vm_compute; discriminate.
Defined.

Lemma setBeanstalkOptions_not_interactive_witness :
  stdin (setBeanstalkOptions TheSession given_parameters
           (fake_world ["unused" +:+ NL])).2 = ["unused" +:+ NL].
Proof.
  destruct (setBeanstalkOptions_not_interactive TheSession given_parameters
              (fake_world ["unused" +:+ NL]))
    as (err & t & k & _ & Hin & _).
  - repeat constructor; discriminate.
  - exact Hin.
Defined.

Lemma setBeanstalkOptions_first_failure_witness :
  ∃ t,
    setBeanstalkOptions TheSession denied_parameters (restricted_world []) =
      (Done (Some "AccessDeniedException"),
       mkWorld (mkRestricted
                  (PutParameter
                     (given_input (mkParameter "DB_USER" "" "/db/user" "admin"))
                     full_sys).2)
               (stdin (restricted_world []))
               (trace (restricted_world []) ++ t)) ∧
    put_calls t =
      given_input <$> ([mkParameter "DB_USER" "" "/db/user" "admin"] ++
                       [mkParameter "API_KEY" "" "/shared/key" "k"]).
Proof.
  apply (setBeanstalkOptions_first_failure TheSession denied_parameters
           [mkParameter "DB_USER" "" "/db/user" "admin"]
           (mkParameter "API_KEY" "" "/shared/key" "k")
           [mkParameter "DB_HOST" "database host" "/db/host" "db.internal"]
           (restricted_world [])
           [mkPutParameterOutput 2]
           (mkRestricted
              (PutParameter
                 (given_input (mkParameter "DB_USER" "" "/db/user" "admin"))
                 full_sys).2)
           "AccessDeniedException").
  - reflexivity.
  - repeat constructor; discriminate.
  - vm_compute; reflexivity.
  - vm_compute; reflexivity.
Defined.


Lemma setBeanstalkOptions_no_newline_witness :
  (setBeanstalkOptions TheSession
     (mkParameters [mkParameter "DB_USER" "" "/db/user" "admin";
                    mkParameter "DB_HOST" "" "/db/host" ""] [])
     (fake_world ["db."; "internal"])).1 = Done (Some "EOF").
Proof.
  rewrite (setBeanstalkOptions_no_newline TheSession _
             [mkParameter "DB_USER" "" "/db/user" "admin"]
             (mkParameter "DB_HOST" "" "/db/host" "") []
             (fake_world ["db."; "internal"])
             (setLoop [mkParameter "DB_USER" "" "/db/user" "admin"]
                (fake_world ["db."; "internal"])).2).
  - reflexivity.
  - reflexivity.
  - vm_compute; reflexivity.
  - reflexivity.
  - repeat constructor; apply (bool_decide_unpack _); vm_compute; exact I.
Defined.

Lemma modes_keep_apart_witness :
  stdin (main [(f_i, "template.yaml")] (full_world ["typed" +:+ NL])).2 =
    ["typed" +:+ NL] ∧
  ∃ t, trace (main [(f_i, "template.yaml"); (f_m, "set")]
                (full_world ["typed" +:+ NL])).2 = [] ++ t ∧
       Forall (λ e, ¬ is_get e ∧ ¬ is_file_write e) t.
Proof.
  split.
  - apply (proj1 (modes_keep_apart [(f_i, "template.yaml")]
                    (full_world ["typed" +:+ NL]))).
    reflexivity.
  - apply (proj2 (modes_keep_apart [(f_i, "template.yaml"); (f_m, "set")]
                    (full_world ["typed" +:+ NL]))).
    reflexivity.
Defined.

Lemma flag_Parse_last_mode_witness :
  mode (flag_Parse ([(f_mode, "get"); (f_i, "template.yaml")] ++
                    (f_m, "set") :: [(f_o, "out.config")])) = "set".
Proof.
  apply flag_Parse_last_mode.
  - by right.
  - intros a Ha. apply elem_of_cons in Ha as [->|Ha].
    + unfold is_mode_flag. simpl. intros [|]; discriminate.
    + by apply elem_of_nil in Ha.
Defined.

Lemma main_set_stores_all_witness :
  ∃ t,
    (main [(f_i, "values.yaml"); (f_m, "set")] (restricted_world [])).1 = Done tt ∧
    put_calls t = given_input <$> Component given_parameters.
Proof.
  set (args := [(f_i, "values.yaml"); (f_m, "set")]).
  set (σ1 := (PutParameter
                (given_input (mkParameter "DB_USER" "" "/db/user" "admin"))
                (mkRestricted full_sys)).2).
  set (σ2 := (PutParameter
                (given_input (mkParameter "DB_HOST" "database host" "/db/host"
                                "db.internal")) σ1).2).
  destruct (main_set_stores_all args (restricted_world [])
              (flag_Parse args) given_parameters TheSession
              (setup args (restricted_world [])).2
              [mkPutParameterOutput 2; mkPutParameterOutput 2] σ2)
    as (t & Hrun & Hcalls).
  - vm_compute; reflexivity.
  - reflexivity.
  - repeat constructor; discriminate.
  - vm_compute; reflexivity.
  - exists t. split; [rewrite Hrun; reflexivity | exact Hcalls].
Defined.

Lemma main_set_store_failure_witness :
  (main [(f_i, "denied.yaml"); (f_m, "set")] (restricted_world [])).1 = Exited 1.
Proof.
  set (args := [(f_i, "denied.yaml"); (f_m, "set")]).
  set (σ1 := (PutParameter
                (given_input (mkParameter "DB_USER" "" "/db/user" "admin"))
                (mkRestricted full_sys)).2).
  destruct (main_set_store_failure args (restricted_world [])
              (flag_Parse args) denied_parameters TheSession
              (setup args (restricted_world [])).2
              [mkParameter "DB_USER" "" "/db/user" "admin"]
              (mkParameter "API_KEY" "" "/shared/key" "k")
              [mkParameter "DB_HOST" "database host" "/db/host" "db.internal"]
              [mkPutParameterOutput 2] σ1 "AccessDeniedException" σ1)
    as (t & Hrun & _).
  - vm_compute; reflexivity.
  - reflexivity.
  - reflexivity.
  - repeat constructor; discriminate.
  - vm_compute; reflexivity.
  - vm_compute; reflexivity.
  - rewrite Hrun. reflexivity.
Defined.
